(** * HaptiNavAI: the three assistive modes, embedded and verified

    A shallow embedding of the event handlers of
    [components/FastMode.tsx], [components/SceneDescriptorMode.tsx] and
    [components/MapsMode.tsx].

    Modelling conventions, shared by the three modules below.

    - A component is a record holding its React state ([useState]), its
      refs ([useRef]) and the part of the browser it talks to, together
      with a chronological [log] of the effects it performed on the
      outside world (speech, audio nodes, tracks, network).
    - A handler is a function from component state to component state.
      An [async] handler is cut at each [await] on an external promise:
      the text before the [await] is one function, the continuation that
      runs when the promise settles is another one, and the environment
      decides when (and with which value) the continuation runs.
    - React state is read through the closure of the latest render, so a
      handler sees the committed value; a ref that mirrors state through
      [useEffect] is a separate field, brought up to date by an explicit
      effect step.
    - JavaScript numbers that measure time or geometry are rationals
      ([Q]); only their order and their sums are used, and the rounding
      of double-precision sums is not modelled. *)

From Stdlib Require Import List String Ascii Bool Arith ZArith QArith Qminmax Qround.
From Stdlib Require Import Lia Lqa DecimalString.
Import ListNotations.

Local Open Scope list_scope.
Local Open Scope string_scope.

(** ** The fragments of the JavaScript library the handlers use *)

Module Js.

(** [Array.prototype.join]. *)
Fixpoint join (sep : string) (xs : list string) : string :=
  match xs with
  | [] => ""
  | x :: rest =>
      match rest with
      | [] => x
      | _ :: _ => x ++ sep ++ join sep rest
      end
  end.

(** [Array.prototype.pop]: the removed last element ([None] is
    [undefined], on an empty array) and the array that is left. *)
Fixpoint pop {A : Type} (xs : list A) : option A * list A :=
  match xs with
  | [] => (None, [])
  | x :: rest =>
      match rest with
      | [] => (Some x, [])
      | _ :: _ => let (l, r) := pop rest in (l, x :: r)
      end
  end.

(** A [Set<string>] keeps its members in insertion order; [add] of a
    member already present changes nothing. *)
Definition set_has (x : string) (s : list string) : bool :=
  existsb (String.eqb x) s.

Definition set_add (s : list string) (x : string) : list string :=
  if set_has x s then s else (s ++ [x])%list.

(** [new Set(iterable)] followed by the spread [[...set]]. *)
Definition set_of (xs : list string) : list string :=
  fold_left set_add xs [].

(** [Math.round]: the nearest integer, halves towards +infinity. *)
Definition round (q : Q) : Z := Qfloor (q + (1 # 2)).

(** A template-literal interpolation of an integer. *)
Definition show_int (z : Z) : string := NilZero.string_of_int (Z.to_int z).

(** What a template literal prints for a possibly [undefined] string. *)
Definition show (o : option string) : string :=
  match o with
  | Some s => s
  | None => "undefined"
  end.

End Js.

(** ** Fast mode: capture, detect, speak *)

Module FastMode.

(** [cocoSsd.DetectedObject]. *)
Record DetectedObject := mkDetected {
  bbox : Q * Q * Q * Q;   (* x, y, width, height in pixels *)
  class : string;
  score : Q
}.

(** [BoundingBox] of [types.ts]. *)
Record BoundingBox := mkBox {
  id : nat;
  label : string;
  x : Q;
  y : Q;
  width : Q;
  height : Q
}.

Record HTMLVideoElement := mkVideo {
  videoWidth : Z;
  videoHeight : Z;
  srcObject : option nat          (* the MediaStream shown, by handle *)
}.

(** The hidden canvas. [context2d] tells whether [getContext('2d')]
    returns a context. *)
Record HTMLCanvasElement := mkCanvas {
  canvas_width : Z;
  canvas_height : Z;
  context2d : bool
}.

Inductive Effect :=
| SpeechCancel
| Speak (text : string)
| DrawImage (w h : Z)
| Detect                          (* model.detect(canvas) was called *)
| ConsoleError (what : string)
| StopTracks (stream : nat)
| GetUserMedia.

(** How the promise of [model.detect] settles. *)
Inductive Settled :=
| Resolved (predictions : list DetectedObject)
| Rejected.

(** The component: its refs, its React state, the detections under way
    and the effects performed. *)
Record St := mkSt {
  videoRef : option HTMLVideoElement;
  canvasRef : option HTMLCanvasElement;
  capturedImage : option string;
  error : option string;
  boxes : list BoundingBox;
  model : option nat;             (* the loaded detector, by handle *)
  isLoadingModel : bool;
  isDetecting : bool;
  pendingDetections : list HTMLCanvasElement;
                                  (* detect() promises not settled yet, each
                                     with the canvas its handler holds *)
  log : list Effect
}.

(** The component as first rendered. *)
Definition initial : St :=
  mkSt None None None None [] None true false [] [].

Definition emit (e : Effect) (s : St) : St :=
  mkSt (videoRef s) (canvasRef s) (capturedImage s) (error s) (boxes s)
       (model s) (isLoadingModel s) (isDetecting s) (pendingDetections s)
       (log s ++ [e])%list.

Definition setIsDetecting (b : bool) (s : St) : St :=
  mkSt (videoRef s) (canvasRef s) (capturedImage s) (error s) (boxes s)
       (model s) (isLoadingModel s) b (pendingDetections s) (log s).

Definition setBoxes (bs : list BoundingBox) (s : St) : St :=
  mkSt (videoRef s) (canvasRef s) (capturedImage s) (error s) bs
       (model s) (isLoadingModel s) (isDetecting s) (pendingDetections s)
       (log s).

Definition setCapturedImage (i : option string) (s : St) : St :=
  mkSt (videoRef s) (canvasRef s) i (error s) (boxes s)
       (model s) (isLoadingModel s) (isDetecting s) (pendingDetections s)
       (log s).

Definition setError (e : option string) (s : St) : St :=
  mkSt (videoRef s) (canvasRef s) (capturedImage s) e (boxes s)
       (model s) (isLoadingModel s) (isDetecting s) (pendingDetections s)
       (log s).

Definition setModel (m : option nat) (s : St) : St :=
  mkSt (videoRef s) (canvasRef s) (capturedImage s) (error s) (boxes s)
       m (isLoadingModel s) (isDetecting s) (pendingDetections s) (log s).

Definition setIsLoadingModel (b : bool) (s : St) : St :=
  mkSt (videoRef s) (canvasRef s) (capturedImage s) (error s) (boxes s)
       (model s) b (isDetecting s) (pendingDetections s) (log s).

Definition setCanvas (c : option HTMLCanvasElement) (s : St) : St :=
  mkSt (videoRef s) c (capturedImage s) (error s) (boxes s)
       (model s) (isLoadingModel s) (isDetecting s) (pendingDetections s)
       (log s).

Definition setVideo (v : option HTMLVideoElement) (s : St) : St :=
  mkSt v (canvasRef s) (capturedImage s) (error s) (boxes s) (model s)
       (isLoadingModel s) (isDetecting s) (pendingDetections s) (log s).

Definition setPending (n : list HTMLCanvasElement) (s : St) : St :=
  mkSt (videoRef s) (canvasRef s) (capturedImage s) (error s) (boxes s)
       (model s) (isLoadingModel s) (isDetecting s) n (log s).

(** [[...new Set(predictions.map(p => p.class))]]. *)
Definition uniqueLabels (predictions : list DetectedObject) : list string :=
  Js.set_of (map class predictions).

(** The text handed to [SpeechSynthesisUtterance]. *)
Definition summary (predictions : list DetectedObject) : string :=
  let uniqueLabels := uniqueLabels predictions in
  if (List.length predictions =? 0)%nat then
    "I could not detect any objects."
  else if (List.length uniqueLabels =? 1)%nat then
    "I see a " ++ Js.show (nth_error uniqueLabels 0) ++ "."
  else
    let (lastLabel, uniqueLabels) := Js.pop uniqueLabels in
    "I see " ++ Js.join ", " uniqueLabels ++ ", and a " ++ Js.show lastLabel ++ ".".

(** [predictions.map((p, index) => ...)]: the boxes, normalised by the
    canvas size. (A zero canvas size gives [0] here where JavaScript
    gives a non-finite number.) *)
Fixpoint newBoxes (w h : Z) (index : nat) (predictions : list DetectedObject)
  : list BoundingBox :=
  match predictions with
  | [] => []
  | p :: rest =>
      let '(bx, by_, bw, bh) := bbox p in
      mkBox index
            (class p ++ " (" ++ Js.show_int (Js.round (score p * 100)) ++ "%)")
            (bx / inject_Z w) (by_ / inject_Z h)
            (bw / inject_Z w) (bh / inject_Z h)
        :: newBoxes w h (S index) rest
  end.

(** [handleCapture] up to the [await model.detect(canvas)]; all of it
    when the guard fails or the canvas gives no 2d context. [png] is
    what [canvas.toDataURL] returns for the frozen frame. *)
Definition handleCapture (png : string) (s : St) : St :=
  match videoRef s, canvasRef s, model s, isDetecting s with
  | Some video, Some canvas, Some _, false =>
      let s := setIsDetecting true s in
      let s := setBoxes [] s in
      let s := emit SpeechCancel s in
      let canvas := mkCanvas (videoWidth video) (videoHeight video) (context2d canvas) in
      let s := setCanvas (Some canvas) s in
      if context2d canvas then
        let s := emit (DrawImage (canvas_width canvas) (canvas_height canvas)) s in
        let s := setCapturedImage (Some png) s in
        let s := emit Detect s in
        setPending (pendingDetections s ++ [canvas])%list s
      else
        setIsDetecting false s
  | _, _, _, _ => s
  end.

(** The rest of [handleCapture], run when the detection settles. With
    no detection pending there is no continuation to run. *)
Definition handleCapture_resume (r : Settled) (s : St) : St :=
  match pendingDetections s with
  | [] => s
  | canvas :: rest =>
      let s := setPending rest s in
      let s :=
        match r with
        | Resolved predictions =>
            let s := emit (Speak (summary predictions)) s in
            setBoxes
              (newBoxes (canvas_width canvas) (canvas_height canvas) 0 predictions)
              s
        | Rejected =>
            let s := emit (ConsoleError "Detection failed:") s in
            setError (Some "Object detection failed.") s
        end in
      setIsDetecting false s
  end.

(** [startCamera] up to its [await]: the tracks of the stream on show
    are stopped and a new stream is requested. *)
Definition startCamera (s : St) : St :=
  let s :=
    match videoRef s with
    | Some video =>
        match srcObject video with
        | Some stream => emit (StopTracks stream) s
        | None => s
        end
    | None => s
    end in
  emit GetUserMedia s.

(** [handleReset], the "Capture Again" button. *)
Definition handleReset (s : St) : St :=
  let s := emit SpeechCancel s in
  let s := setCapturedImage None s in
  let s := setBoxes [] s in
  startCamera s.

(** What can happen to the mounted component. *)
Inductive Event :=
| Capture (png : string)               (* handleCapture is invoked *)
| DetectionSettled (r : Settled)       (* the detect() promise settles *)
| CaptureAgain                         (* handleReset is invoked *)
| ModelLoaded (m : option nat)         (* loadModel finishes; None: it failed *)
| VideoMounted (v : option HTMLVideoElement)   (* React sets videoRef *)
| CanvasMounted (c : option HTMLCanvasElement). (* React sets canvasRef *)

Definition step (s : St) (e : Event) : St :=
  match e with
  | Capture png => handleCapture png s
  | DetectionSettled r => handleCapture_resume r s
  | CaptureAgain => handleReset s
  | ModelLoaded (Some m) => setIsLoadingModel false (setModel (Some m) s)
  | ModelLoaded None =>
      setIsLoadingModel false
        (setError (Some "Could not load the object detection model. Please try again later.")
           (emit (ConsoleError "Failed to load model:") s))
  | VideoMounted v => setVideo v s
  | CanvasMounted c => setCanvas c s
  end.

Definition run (evs : list Event) (s : St) : St := fold_left step evs s.

(** The reading of "distinct labels, first occurrence first" that
    [uniqueLabels] is compared with. *)
Fixpoint first_occurrences (xs : list string) : list string :=
  match xs with
  | [] => []
  | x :: rest =>
      x :: filter (fun y => negb (String.eqb x y)) (first_occurrences rest)
  end.

(** *** Invariant and scenario *)

(** While a detection is pending the component says so. *)
Definition in_flight_inv (s : St) : Prop :=
  (List.length (pendingDetections s) <= 1)%nat /\
  (List.length (pendingDetections s) = 1%nat -> isDetecting s = true).

(** A component in the middle of a detection: video, canvas and model
    are there, and Capture was pressed once. *)
Definition detecting : St :=
  run [VideoMounted (Some (mkVideo 640 480 (Some 1%nat)));
       CanvasMounted (Some (mkCanvas 300 150 true));
       ModelLoaded (Some 7%nat);
       Capture "data:image/png;base64,AAAA"] initial.

(** *** The rest of the component *)

(** [startCamera] after its [await]: with the stream, or [None] when
    [getUserMedia] rejects. *)
Definition startCamera_settled (stream : option nat) (s : St) : St :=
  match stream with
  | Some stream =>
      match videoRef s with
      | Some video =>
          setVideo (Some (mkVideo (videoWidth video) (videoHeight video) (Some stream))) s
      | None => s
      end
  | None =>
      let s := emit (ConsoleError "Error accessing camera:") s in
      setError (Some "Could not access camera. Please check permissions.") s
  end.

(** The clean-up of the mounting effect, run when the component
    unmounts. *)
Definition unmount (s : St) : St :=
  let s :=
    match videoRef s with
    | Some video =>
        match srcObject video with
        | Some stream => emit (StopTracks stream) s
        | None => s
        end
    | None => s
    end in
  emit SpeechCancel s.

(** Everything that can happen: the events above, the settling of a
    camera request, and the unmounting. *)
Inductive Occurrence :=
| Of (e : Event)
| CameraSettled (stream : option nat)
| Unmounted.

Definition occur (s : St) (o : Occurrence) : St :=
  match o with
  | Of e => step s e
  | CameraSettled stream => startCamera_settled stream s
  | Unmounted => unmount s
  end.

Definition occurs (os : list Occurrence) (s : St) : St := fold_left occur os s.

(** [disabled={isLoadingModel || isDetecting}] of the Capture button. *)
Definition capture_disabled (s : St) : bool := isLoadingModel s || isDetecting s.

(** A detected box lies within a frame of [w] by [h] pixels. *)
Definition in_frame (w h : Z) (p : DetectedObject) : Prop :=
  let '(bx, by_, bw, bh) := bbox p in
  (0 <= bx <= inject_Z w /\ 0 <= by_ <= inject_Z h /\
   0 <= bw <= inject_Z w /\ 0 <= bh <= inject_Z h)%Q.

(** A box in normalised coordinates. *)
Definition normalised (b : BoundingBox) : Prop :=
  (0 <= x b <= 1 /\ 0 <= y b <= 1 /\ 0 <= width b <= 1 /\ 0 <= height b <= 1)%Q.

(** [isDetecting] holds exactly while a detection is pending, and at
    most one is. *)
Definition detecting_inv (s : St) : Prop :=
  (List.length (pendingDetections s) <= 1)%nat /\
  (isDetecting s = true <-> List.length (pendingDetections s) = 1%nat).

(** *** Sets in insertion order *)

Lemma filter_filter (f g : string -> bool) (l : list string) :
  filter f (filter g l) = filter (fun y => g y && f y) l.
Proof.
  induction l as [|a l IH]; simpl; [reflexivity|].
  destruct (g a) eqn:Hg; simpl; [|exact IH].
  destruct (f a); simpl; now rewrite IH.
Qed.

Lemma set_has_app (y : string) (acc : list string) (x : string) :
  Js.set_has y (acc ++ [x])%list = Js.set_has y acc || String.eqb x y.
Proof.
  unfold Js.set_has. rewrite existsb_app. simpl.
  rewrite orb_false_r, (String.eqb_sym y x). reflexivity.
Qed.

(** Folding [add] over a list, from a set [acc] on: [acc] followed by
    the first occurrences that are new to it. *)
Lemma fold_set_add (xs acc : list string) :
  fold_left Js.set_add xs acc =
  (acc ++ filter (fun y => negb (Js.set_has y acc)) (first_occurrences xs))%list.
Proof.
  revert acc. induction xs as [|x rest IH]; intros acc; simpl.
  - now rewrite app_nil_r.
  - rewrite IH. unfold Js.set_add.
    destruct (Js.set_has x acc) eqn:Hx; simpl.
    + f_equal. rewrite filter_filter. apply filter_ext. intros y.
      destruct (String.eqb_spec x y) as [->|_]; simpl; [|reflexivity].
      now rewrite Hx.
    + rewrite <- app_assoc. simpl. do 2 f_equal.
      rewrite filter_filter. apply filter_ext. intros y.
      rewrite set_has_app, negb_orb. apply andb_comm.
Qed.

Lemma set_of_first_occurrences (xs : list string) :
  Js.set_of xs = first_occurrences xs.
Proof.
  unfold Js.set_of. rewrite fold_set_add. simpl.
  induction (first_occurrences xs) as [|a l IH]; simpl; congruence.
Qed.

Lemma first_occurrences_constant (L : string) (xs : list string) :
  Forall (eq L) xs ->
  filter (fun y => negb (String.eqb L y)) (first_occurrences xs) = [].
Proof.
  induction 1 as [|x rest <- _ IH]; simpl; [reflexivity|].
  rewrite String.eqb_refl. simpl.
  rewrite filter_filter.
  erewrite filter_ext; [exact IH|]. intros y. apply andb_diag.
Qed.

Lemma pop_snoc {A : Type} (front : list A) (a : A) :
  Js.pop (front ++ [a])%list = (Some a, front).
Proof.
  induction front as [|b front IH]; [reflexivity|].
  change ((b :: front) ++ [a])%list with (b :: (front ++ [a]))%list.
  cbn [Js.pop]. rewrite IH.
  destruct front; reflexivity.
Qed.

(** *** The spoken summary *)

Lemma uniqueLabels_nil (predictions : list DetectedObject) :
  uniqueLabels predictions = [] -> predictions = [].
Proof.
  unfold uniqueLabels. rewrite set_of_first_occurrences.
  destruct predictions; simpl; [reflexivity | discriminate].
Qed.

Lemma summary_single (predictions : list DetectedObject) (X : string) :
  uniqueLabels predictions = [X] ->
  summary predictions = "I see a " ++ X ++ ".".
Proof.
  intros HX. unfold summary. rewrite HX.
  destruct predictions as [|p rest]; [discriminate HX | reflexivity].
Qed.

Lemma summary_many (predictions : list DetectedObject)
      (front : list string) (lastLabel : string) :
  front <> [] ->
  uniqueLabels predictions = (front ++ [lastLabel])%list ->
  summary predictions =
  "I see " ++ Js.join ", " front ++ ", and a " ++ lastLabel ++ ".".
Proof.
  intros Hfront HU. unfold summary. rewrite HU, pop_snoc.
  destruct predictions as [|p rest].
  - destruct front; discriminate HU.
  - destruct front as [|a [|b front]]; [congruence | reflexivity | ].
    reflexivity.
Qed.

(** C4. The utterance spoken for a settled detection is [summary] of
    its predictions, and [summary] is: the explicit negative sentence for
    no prediction; "I see a X." when X is the only distinct label; for two
    or more distinct labels "I see ", the labels but the last joined by
    ", ", then ", and a ", the last label and a full stop, which for dog
    and cat reads "I see dog, and a cat.". *)
Theorem summary_by_label_count :
  summary [] = "I could not detect any objects." /\
  (forall predictions X,
      uniqueLabels predictions = [X] ->
      summary predictions = "I see a " ++ X ++ ".") /\
  (forall predictions front lastLabel,
      front <> [] ->
      uniqueLabels predictions = (front ++ [lastLabel])%list ->
      summary predictions =
      "I see " ++ Js.join ", " front ++ ", and a " ++ lastLabel ++ ".") /\
  (forall dog cat,
      class dog = "dog" -> class cat = "cat" ->
      uniqueLabels [dog; cat] = ["dog"; "cat"] /\
      summary [dog; cat] = "I see dog, and a cat.") /\
  (forall predictions s,
      pendingDetections s <> [] ->
      log (handleCapture_resume (Resolved predictions) s) =
      (log s ++ [Speak (summary predictions)])%list).
Proof.
  split; [reflexivity|].
  split; [exact summary_single|].
  split; [exact summary_many|].
  split.
  - intros dog cat Hdog Hcat.
    assert (HU : uniqueLabels [dog; cat] = ["dog"; "cat"]).
    { unfold uniqueLabels. simpl. rewrite Hdog, Hcat. reflexivity. }
    split; [exact HU|].
    apply (summary_many [dog; cat] ["dog"] "cat"); [discriminate | exact HU].
  - intros predictions s Hpending. unfold handleCapture_resume.
    destruct (pendingDetections s) as [|canvas rest]; [congruence|].
    reflexivity.
Qed.

Lemma summary_by_label_count_witness :
  summary [mkDetected (0, 0, 1, 1) "dog" (9 # 10)]%Q = "I see a dog." /\
  summary [mkDetected (0, 0, 1, 1) "dog" (9 # 10);
           mkDetected (3, 0, 1, 1) "cat" (8 # 10);
           mkDetected (6, 0, 1, 1) "dog" (7 # 10)]%Q = "I see dog, and a cat.".
Proof.
  split.
  - apply (proj1 (proj2 summary_by_label_count) _ "dog"). reflexivity.
  - apply (proj1 (proj2 (proj2 summary_by_label_count)) _ ["dog"] "cat");
      [discriminate | reflexivity].
Defined.

Example summary_three_labels :
  summary [mkDetected (0, 0, 1, 1) "person" (9 # 10);
           mkDetected (0, 0, 1, 1) "chair" (8 # 10);
           mkDetected (2, 2, 1, 1) "person" (7 # 10);
           mkDetected (0, 0, 1, 1) "cup" (6 # 10)]%Q
  = "I see person, chair, and a cup.".
Proof. reflexivity. Qed.

(** C9. [uniqueLabels] is the list of distinct labels by first
    occurrence; the summary is a function of that list alone; and when
    every detected object carries the label L the summary is the singular
    "I see a L.", however many objects there are. *)
Theorem summary_of_distinct_labels :
  (forall predictions,
      uniqueLabels predictions = first_occurrences (map class predictions)) /\
  (forall p1 p2,
      uniqueLabels p1 = uniqueLabels p2 -> summary p1 = summary p2) /\
  (forall predictions L,
      predictions <> [] ->
      Forall (fun p => class p = L) predictions ->
      summary predictions = "I see a " ++ L ++ ".").
Proof.
  split; [intros; apply set_of_first_occurrences|].
  split.
  - intros p1 p2 HU. unfold summary. rewrite <- HU.
    destruct p1 as [|a p1], p2 as [|b p2]; try reflexivity.
    + symmetry in HU. apply uniqueLabels_nil in HU. discriminate HU.
    + apply uniqueLabels_nil in HU. discriminate HU.
  - intros predictions L Hne Hall. apply summary_single.
    unfold uniqueLabels. rewrite set_of_first_occurrences.
    destruct predictions as [|p rest]; [congruence|].
    inversion Hall as [|p' rest' Hp Hrest]; subst. simpl.
    f_equal. apply first_occurrences_constant.
    rewrite Forall_map. revert Hrest. apply Forall_impl. intros a Ha. now symmetry.
Qed.

Lemma summary_of_distinct_labels_witness :
  summary [mkDetected (0, 0, 1, 1) "dog" (9 # 10);
           mkDetected (5, 0, 1, 1) "dog" (8 # 10);
           mkDetected (9, 0, 1, 1) "dog" (7 # 10)]%Q
  = "I see a dog.".
Proof.
  apply (proj2 (proj2 summary_of_distinct_labels) _ "dog"); [discriminate|].
  repeat constructor.
Defined.

(** *** One detection at a time *)

Lemma handleCapture_detecting (png : string) (s : St) :
  isDetecting s = true -> handleCapture png s = s.
Proof.
  intros Hd. unfold handleCapture. rewrite Hd.
  destruct (videoRef s), (canvasRef s), (model s); reflexivity.
Qed.

Lemma step_in_flight_inv (s : St) (e : Event) :
  in_flight_inv s -> in_flight_inv (step s e).
Proof.
  unfold in_flight_inv. intros [Hle Hdet].
  destruct e as [png | r | | [m|] | v | c]; simpl; try (split; assumption).
  - unfold handleCapture.
    destruct (videoRef s) as [video|]; [|split; assumption].
    destruct (canvasRef s) as [canvas|]; [|split; assumption].
    destruct (model s) as [detector|]; [|split; assumption].
    destruct (isDetecting s) eqn:Hd; [split; [assumption | intros _; exact Hd]|].
    assert (Hzero : pendingDetections s = []).
    { destruct (pendingDetections s) as [|c1 [|c2 k]]; [reflexivity | | simpl in Hle; lia].
      specialize (Hdet eq_refl). discriminate Hdet. }
    simpl. destruct (context2d canvas); simpl.
    + rewrite Hzero. split; [simpl; lia | reflexivity].
    + rewrite Hzero. split; [simpl; lia | discriminate].
  - unfold handleCapture_resume.
    destruct (pendingDetections s) as [|c1 rest] eqn:Hp; [rewrite Hp; split; assumption|].
    assert (rest = []) by (destruct rest; [reflexivity | simpl in Hle; lia]). subst rest.
    destruct r; simpl; split; (lia || discriminate).
  - unfold handleReset, startCamera. simpl.
    destruct (videoRef s) as [video|]; [destruct (srcObject video)|]; simpl;
      split; assumption.
Qed.

Lemma run_in_flight_inv (evs : list Event) (s : St) :
  in_flight_inv s -> in_flight_inv (run evs s).
Proof.
  revert s. induction evs as [|e evs IH]; intros s Hs; [exact Hs|].
  simpl. apply IH, step_in_flight_inv, Hs.
Qed.

(** C7. An invocation of [handleCapture] while [isDetecting] holds
    returns the component as it found it: no state changes, no effect is
    performed, no detection starts and none is recorded for later. Along
    every history of the component at most one detection is pending, and
    while one is pending [isDetecting] holds, so every further
    invocation is such an ignored one. *)
Theorem capture_single_in_flight :
  (forall png s, isDetecting s = true -> handleCapture png s = s) /\
  (forall evs,
      let s := run evs initial in
      (List.length (pendingDetections s) <= 1)%nat /\
      (List.length (pendingDetections s) = 1%nat -> isDetecting s = true) /\
      (List.length (pendingDetections s) = 1%nat ->
       forall png, step s (Capture png) = s)).
Proof.
  split; [exact handleCapture_detecting|].
  intros evs s.
  assert (Hinv : in_flight_inv s).
  { apply run_in_flight_inv. split; simpl; [lia | discriminate]. }
  destruct Hinv as [Hle Hdet].
  repeat split; try assumption.
  intros Hp png. simpl. apply handleCapture_detecting, Hdet, Hp.
Qed.

Lemma capture_single_in_flight_witness :
  pendingDetections detecting = [mkCanvas 640 480 true] /\
  isDetecting detecting = true /\
  handleCapture "data:image/png;base64,BBBB" detecting = detecting.
Proof.
  split; [reflexivity|]. split; [reflexivity|].
  apply (proj1 capture_single_in_flight). reflexivity.
Defined.

(** *** Boxes *)

Lemma normalise_coordinate (a : Q) (n : Z) :
  (0 < n)%Z -> (0 <= a <= inject_Z n)%Q -> (0 <= a / inject_Z n <= 1)%Q.
Proof.
  intros Hn [H0 H1].
  assert (Hpos : (0 < inject_Z n)%Q) by (unfold Qlt; cbn; lia).
  split.
  - apply Qle_shift_div_l; [exact Hpos|]. lra.
  - apply Qle_shift_div_r; [exact Hpos|]. lra.
Qed.

Lemma newBoxes_ids (w h : Z) (predictions : list DetectedObject) (index : nat) :
  map id (newBoxes w h index predictions) = seq index (List.length predictions).
Proof.
  revert index. induction predictions as [|p rest IH]; intros index; [reflexivity|].
  cbn [newBoxes]. destruct (bbox p) as [[[bx by_] bw] bh].
  cbn. now rewrite IH.
Qed.

Lemma newBoxes_normalised (w h : Z) (predictions : list DetectedObject) (index : nat) :
  (0 < w)%Z -> (0 < h)%Z ->
  Forall (in_frame w h) predictions ->
  Forall normalised (newBoxes w h index predictions).
Proof.
  intros Hw Hh Hall. revert index.
  induction Hall as [|p rest Hp _ IH]; intros index; [constructor|].
  cbn [newBoxes]. unfold in_frame in Hp.
  destruct (bbox p) as [[[bx by_] bw] bh].
  destruct Hp as (Hx & Hy & Hbw & Hbh).
  constructor; [|apply IH].
  unfold normalised. cbn.
  repeat split; apply normalise_coordinate; assumption.
Qed.

Lemma round_percent (q : Q) :
  (0 <= q <= 1)%Q -> (0 <= Js.round (q * 100) <= 100)%Z.
Proof.
  intros [H0 H1]. unfold Js.round. split.
  - assert (H : (Qfloor 0 <= Qfloor (q * 100 + (1 # 2)))%Z)
      by (apply Qfloor_resp_le; lra).
    exact H.
  - assert (H : (Qfloor (q * 100 + (1 # 2)) <= Qfloor (100 + (1 # 2)))%Z)
      by (apply Qfloor_resp_le; lra).
    exact H.
Qed.

(** X3. The boxes made from a detection are numbered 0, 1, 2, ... in the
    order of the predictions; when the canvas has a positive size and the
    detected boxes lie within it, every coordinate of every box is between
    0 and 1; and a score between 0 and 1 is shown as a whole percentage
    between 0 and 100. *)
Theorem boxes_normalised_and_numbered :
  forall w h predictions,
    (0 < w)%Z -> (0 < h)%Z ->
    Forall (in_frame w h) predictions ->
    Forall (fun p => (0 <= score p <= 1)%Q) predictions ->
    let boxes := newBoxes w h 0 predictions in
    map id boxes = seq 0 (List.length predictions) /\
    Forall normalised boxes /\
    Forall (fun p => (0 <= Js.round (score p * 100) <= 100)%Z) predictions.
Proof.
  intros w h predictions Hw Hh Hframe Hscore boxes. subst boxes.
  split; [apply newBoxes_ids|].
  split; [apply newBoxes_normalised; assumption|].
  revert Hscore. apply Forall_impl. intros p. apply round_percent.
Qed.

Lemma boxes_normalised_and_numbered_witness :
  newBoxes 640 480 0
    [mkDetected (64, 48, 320, 240) "dog" (87 # 100);
     mkDetected (0, 0, 640, 480) "sofa" (1 # 2)]%Q
  = [mkBox 0 "dog (87%)" (64 / 640) (48 / 480) (320 / 640) (240 / 480);
     mkBox 1 "sofa (50%)" (0 / 640) (0 / 480) (640 / 640) (480 / 480)]%Q /\
  Forall normalised
    (newBoxes 640 480 0
       [mkDetected (64, 48, 320, 240) "dog" (87 # 100);
        mkDetected (0, 0, 640, 480) "sofa" (1 # 2)]%Q).
Proof.
  split; [reflexivity|].
  apply (boxes_normalised_and_numbered 640 480); try reflexivity.
  - repeat constructor; cbn; discriminate.
  - repeat constructor; cbn; discriminate.
Defined.

(** *** What a pending detection survives *)

Lemma unmount_pending (s : St) : pendingDetections (unmount s) = pendingDetections s.
Proof.
  unfold unmount.
  destruct (videoRef s) as [video|]; [destruct (srcObject video)|]; reflexivity.
Qed.

Lemma handleReset_pending (s : St) :
  pendingDetections (handleReset s) = pendingDetections s /\
  capturedImage (handleReset s) = None.
Proof.
  unfold handleReset, startCamera. cbn.
  destruct (videoRef s) as [video|]; [destruct (srcObject video)|]; split; reflexivity.
Qed.

Lemma resume_resolved (predictions : list DetectedObject)
      (canvas : HTMLCanvasElement) (rest : list HTMLCanvasElement) (s : St) :
  pendingDetections s = canvas :: rest ->
  let s' := handleCapture_resume (Resolved predictions) s in
  log s' = (log s ++ [Speak (summary predictions)])%list /\
  boxes s' = newBoxes (canvas_width canvas) (canvas_height canvas) 0 predictions /\
  capturedImage s' = capturedImage s.
Proof.
  intros Hp. unfold handleCapture_resume. rewrite Hp. cbn. auto.
Qed.

(** X4. Neither "Capture Again" nor leaving the mode cancels a
    detection that is under way: when it settles afterwards its summary is
    still spoken, after the cancelling of speech that the reset or the
    unmounting did; after a reset the boxes are set although no captured
    image is held any more. *)
Theorem detection_outlives_reset :
  forall predictions canvas rest s,
    pendingDetections s = canvas :: rest ->
    (let s' := handleCapture_resume (Resolved predictions) (handleReset s) in
     log s' = (log (handleReset s) ++ [Speak (summary predictions)])%list /\
     capturedImage s' = None /\
     boxes s' = newBoxes (canvas_width canvas) (canvas_height canvas) 0 predictions) /\
    (let s' := handleCapture_resume (Resolved predictions) (unmount s) in
     log s' = (log s ++ match videoRef s with
                        | Some (mkVideo _ _ (Some stream)) => [StopTracks stream]
                        | _ => []
                        end
                     ++ [SpeechCancel; Speak (summary predictions)])%list).
Proof.
  intros predictions canvas rest s Hp. split.
  - destruct (handleReset_pending s) as [Hpending Himage].
    rewrite Hp in Hpending.
    destruct (resume_resolved predictions canvas rest _ Hpending) as (Hl & Hb & Hi).
    cbv zeta. rewrite Hi, Himage. auto.
  - pose proof (unmount_pending s) as Hpending. rewrite Hp in Hpending.
    destruct (resume_resolved predictions canvas rest _ Hpending) as (Hl & _ & _).
    cbv zeta. rewrite Hl. unfold unmount.
    destruct (videoRef s) as [[vw vh [stream|]]|]; cbn;
      rewrite <- ?app_assoc; reflexivity.
Qed.

Lemma detection_outlives_reset_witness :
  let late :=
    handleCapture_resume
      (Resolved [mkDetected (0, 0, 1, 1) "dog" (9 # 10)]%Q) (handleReset detecting) in
  capturedImage late = None /\
  log late = (log (handleReset detecting) ++ [Speak "I see a dog."])%list.
Proof.
  destruct (detection_outlives_reset
              [mkDetected (0, 0, 1, 1) "dog" (9 # 10)]%Q
              (mkCanvas 640 480 true) [] detecting eq_refl)
    as [(Hlog & Himage & _) _].
  split; [exact Himage | exact Hlog].
Defined.

(** *** The error message *)

Lemma step_keeps_error (s : St) (e : Event) (m : string) :
  error s = Some m -> exists m', error (step s e) = Some m'.
Proof.
  intros Herr.
  destruct e as [png | r | | [detector|] | v | c]; cbn;
    try (eexists; eassumption || reflexivity).
  - unfold handleCapture.
    destruct (videoRef s) as [video|]; [|eauto].
    destruct (canvasRef s) as [canvas|]; [|eauto].
    destruct (model s); [|eauto].
    destruct (isDetecting s); [eauto|].
    cbn. destruct (context2d canvas); cbn; eauto.
  - unfold handleCapture_resume.
    destruct (pendingDetections s) as [|canvas rest]; [eauto|].
    destruct r; cbn; eauto.
  - unfold handleReset, startCamera. cbn.
    destruct (videoRef s) as [video|]; [destruct (srcObject video)|]; cbn; eauto.
Qed.

(** X5. No handler of the component clears the error message: once one
    is set (model not loaded, camera refused, detection failed), some
    message is set after every further event, later successful detections
    included. *)
Theorem error_is_never_cleared :
  forall os s m,
    error s = Some m -> exists m', error (occurs os s) = Some m'.
Proof.
  induction os as [|o os IH]; intros s m Herr; [eauto|].
  cbn. assert (Hstep : exists m', error (occur s o) = Some m').
  { destruct o as [e | [stream|] |]; cbn.
    - eapply step_keeps_error, Herr.
    - destruct (videoRef s); cbn; eauto.
    - eauto.
    - unfold unmount.
      destruct (videoRef s) as [video|]; [destruct (srcObject video)|]; cbn; eauto. }
  destruct Hstep as [m' Hm']. eapply IH, Hm'.
Qed.

Lemma error_is_never_cleared_witness :
  let failed := step detecting (DetectionSettled Rejected) in
  let again :=
    occurs [Of CaptureAgain; CameraSettled (Some 2%nat);
            Of (VideoMounted (Some (mkVideo 640 480 (Some 2%nat))));
            Of (Capture "data:image/png;base64,CCCC");
            Of (DetectionSettled (Resolved []))] failed in
  error failed = Some "Object detection failed." /\
  exists m', error again = Some m'.
Proof.
  split; [reflexivity|].
  apply (error_is_never_cleared _ _ "Object detection failed."). reflexivity.
Defined.

(** *** The Capture button *)

Lemma occur_detecting_inv (s : St) (o : Occurrence) :
  detecting_inv s -> detecting_inv (occur s o).
Proof.
  unfold detecting_inv. intros [Hle Hiff].
  destruct o as [e | [stream|] |]; cbn.
  - destruct e as [png | r | | [detector|] | v | c]; cbn; try (split; assumption).
    + unfold handleCapture.
      destruct (videoRef s) as [video|]; [|split; assumption].
      destruct (canvasRef s) as [canvas|]; [|split; assumption].
      destruct (model s) as [detector|]; [|split; assumption].
      destruct (isDetecting s) eqn:Hd; [rewrite Hd; split; assumption|].
      assert (Hzero : pendingDetections s = []).
      { destruct (pendingDetections s) as [|c1 [|c2 k]];
          [reflexivity | | simpl in Hle; lia].
        destruct Hiff as [_ Hback]. specialize (Hback eq_refl). discriminate Hback. }
      cbn. destruct (context2d canvas); cbn; rewrite Hzero; cbn.
      * split; [lia | split; reflexivity].
      * split; [lia | split; discriminate].
    + unfold handleCapture_resume.
      destruct (pendingDetections s) as [|c1 rest] eqn:Hp;
        [rewrite Hp; split; assumption|].
      assert (rest = []) by (destruct rest; [reflexivity | simpl in Hle; lia]).
      subst rest.
      destruct r; cbn; (split; [lia | split; discriminate]).
    + unfold handleReset, startCamera. cbn.
      destruct (videoRef s) as [video|]; [destruct (srcObject video)|]; cbn;
        split; assumption.
  - destruct (videoRef s); cbn; split; assumption.
  - split; assumption.
  - unfold unmount.
    destruct (videoRef s) as [video|]; [destruct (srcObject video)|]; cbn;
      split; assumption.
Qed.

Lemma occurs_detecting_inv (os : list Occurrence) (s : St) :
  detecting_inv s -> detecting_inv (occurs os s).
Proof.
  revert s. induction os as [|o os IH]; intros s Hs; [exact Hs|].
  cbn. apply IH, occur_detecting_inv, Hs.
Qed.

(** X6. Along every history of the component [isDetecting] holds
    exactly while one detection is pending. So whichever way the detection
    settles, [isDetecting] is false afterwards and, once the model is
    loaded, the Capture button is enabled again. *)
Theorem detecting_exactly_while_pending :
  forall os,
    let s := occurs os initial in
    (isDetecting s = true <-> List.length (pendingDetections s) = 1%nat) /\
    (forall r,
        let s' := step s (DetectionSettled r) in
        isDetecting s' = false /\
        pendingDetections s' = [] /\
        capture_disabled s' = isLoadingModel s).
Proof.
  intros os s.
  assert (Hinv : detecting_inv s).
  { apply occurs_detecting_inv. split; cbn; [lia | split; discriminate]. }
  destruct Hinv as [Hle Hiff]. split; [exact Hiff|].
  intros r s'. subst s'. cbn. unfold handleCapture_resume, capture_disabled.
  destruct (pendingDetections s) as [|c1 rest] eqn:Hp.
  - rewrite Hp.
    assert (Hd : isDetecting s = false).
    { destruct (isDetecting s); [|reflexivity].
      destruct Hiff as [Hforth _]. specialize (Hforth eq_refl). discriminate Hforth. }
    rewrite Hd, orb_false_r. auto.
  - assert (rest = []) by (destruct rest; [reflexivity | simpl in Hle; lia]).
    subst rest. destruct r; cbn; rewrite orb_false_r; auto.
Qed.

End FastMode.

(** ** Scene descriptor mode: the live session *)

Module SceneDescriptorMode.

Inductive SessionState := Idle | Connecting | Active | Error | Stopped.

Inductive AudioContextState := suspended | running | closed.

Record AudioContext := mkContext {
  sampleRate : positive;
  state : AudioContextState
}.

Record MediaStream := mkStream {
  getTracks : list nat             (* the tracks, by handle *)
}.

(** An [AudioBuffer]: so many sample frames at so many frames a second. *)
Record AudioBuffer := mkBuffer {
  frames : N;
  rate : positive
}.

(** [AudioBuffer.duration], in seconds. *)
Definition duration (b : AudioBuffer) : Q := Z.of_N (frames b) # rate b.

(** A node made by [ctx.createBufferSource()], with the buffer it was
    given. Nodes are told apart by the order of their creation. *)
Record AudioBufferSourceNode := mkSource {
  node : nat;
  buffer : AudioBuffer
}.

(** [LiveServerMessage], as far as [onmessage] looks into it. An absent
    optional property is [None]; [parts] of a [Content] is optional as
    the others are. *)
Record Blob_ := mkBlob { data : option string }.
Record Part := mkPart { inlineData : option Blob_ }.
Record Content := mkContent { parts : option (list Part) }.
Record Transcription := mkTranscription { text : option string }.
Record LiveServerContent := mkServerContent {
  outputTranscription : option Transcription;
  modelTurn : option Content;
  interrupted : option bool
}.
Record LiveServerMessage := mkMessage {
  serverContent : option LiveServerContent
}.

Inductive Effect :=
| ClearInterval (timer : positive)
| TrackStop (track : nat)
| Disconnect (processor : nat)
| ContextClosed (c : AudioContext)          (* close() on an open context *)
| ContextCloseRejected (c : AudioContext)   (* close() on a closed one: InvalidStateError *)
| SessionClose (session : nat)              (* session.close(), once the promise resolves *)
| NewAudioContext (rate : positive)
| Connect (session : nat)                   (* ai.live.connect *)
| SendText (session : nat) (prompt : string)
| CreateScriptProcessor (processor : nat)
| SetInterval (timer : positive)
| SourceStart (source : AudioBufferSourceNode) (when : Q)
| SourceStop (source : AudioBufferSourceNode)
| ConsoleError (what : string).

(** An [onmessage] call stopped at [await decodeAudioData(...)]: the
    message it handles and the context it read from the ref. *)
Record Awaiting := mkAwaiting {
  message : LiveServerMessage;
  ctx : AudioContext
}.

(** The component: its React state, its refs, the [onmessage] calls
    under way and the effects performed. A ref that is [null] is [None].
    [setInterval] returns handles above zero, so the truthiness test
    [cleanup] makes on [frameIntervalRef.current] is the test for
    [null]; the other refs hold objects. *)
Record St := mkSt {
  error : option string;
  sessionState : SessionState;
  transcription : string;
  sessionRef : option nat;   (* the promise of ai.live.connect, by handle *)
  inputAudioContextRef : option AudioContext;
  outputAudioContextRef : option AudioContext;
  mediaStreamRef : option MediaStream;
  scriptProcessorRef : option nat;   (* the ScriptProcessorNode, by handle *)
  frameIntervalRef : option positive;   (* a timer handle *)
  nextAudioStartTimeRef : Q;
  audioSourcesRef : list AudioBufferSourceNode;   (* a Set, in insertion order *)
  awaiting : list Awaiting;   (* onmessage calls waiting at their await *)
  created : nat;   (* source nodes created so far *)
  log : list Effect   (* the effects performed, oldest first *)
}.

Definition setError (v : option string) (s : St) : St :=
  mkSt v (sessionState s) (transcription s) (sessionRef s)
       (inputAudioContextRef s) (outputAudioContextRef s) (mediaStreamRef s)
       (scriptProcessorRef s) (frameIntervalRef s) (nextAudioStartTimeRef s)
       (audioSourcesRef s) (awaiting s) (created s) (log s).

Definition setSessionState (v : SessionState) (s : St) : St :=
  mkSt (error s) v (transcription s) (sessionRef s) (inputAudioContextRef s)
       (outputAudioContextRef s) (mediaStreamRef s) (scriptProcessorRef s)
       (frameIntervalRef s) (nextAudioStartTimeRef s) (audioSourcesRef s)
       (awaiting s) (created s) (log s).

Definition setTranscription (v : string) (s : St) : St :=
  mkSt (error s) (sessionState s) v (sessionRef s) (inputAudioContextRef s)
       (outputAudioContextRef s) (mediaStreamRef s) (scriptProcessorRef s)
       (frameIntervalRef s) (nextAudioStartTimeRef s) (audioSourcesRef s)
       (awaiting s) (created s) (log s).

Definition set_sessionRef (v : option nat) (s : St) : St :=
  mkSt (error s) (sessionState s) (transcription s) v
       (inputAudioContextRef s) (outputAudioContextRef s) (mediaStreamRef s)
       (scriptProcessorRef s) (frameIntervalRef s) (nextAudioStartTimeRef s)
       (audioSourcesRef s) (awaiting s) (created s) (log s).

Definition set_inputAudioContextRef (v : option AudioContext) (s : St) : St :=
  mkSt (error s) (sessionState s) (transcription s) (sessionRef s) v
       (outputAudioContextRef s) (mediaStreamRef s) (scriptProcessorRef s)
       (frameIntervalRef s) (nextAudioStartTimeRef s) (audioSourcesRef s)
       (awaiting s) (created s) (log s).

Definition set_outputAudioContextRef (v : option AudioContext) (s : St) : St :=
  mkSt (error s) (sessionState s) (transcription s) (sessionRef s)
       (inputAudioContextRef s) v (mediaStreamRef s) (scriptProcessorRef s)
       (frameIntervalRef s) (nextAudioStartTimeRef s) (audioSourcesRef s)
       (awaiting s) (created s) (log s).

Definition set_mediaStreamRef (v : option MediaStream) (s : St) : St :=
  mkSt (error s) (sessionState s) (transcription s) (sessionRef s)
       (inputAudioContextRef s) (outputAudioContextRef s) v
       (scriptProcessorRef s) (frameIntervalRef s) (nextAudioStartTimeRef s)
       (audioSourcesRef s) (awaiting s) (created s) (log s).

Definition set_scriptProcessorRef (v : option nat) (s : St) : St :=
  mkSt (error s) (sessionState s) (transcription s) (sessionRef s)
       (inputAudioContextRef s) (outputAudioContextRef s) (mediaStreamRef s)
       v (frameIntervalRef s) (nextAudioStartTimeRef s) (audioSourcesRef s)
       (awaiting s) (created s) (log s).

Definition set_frameIntervalRef (v : option positive) (s : St) : St :=
  mkSt (error s) (sessionState s) (transcription s) (sessionRef s)
       (inputAudioContextRef s) (outputAudioContextRef s) (mediaStreamRef s)
       (scriptProcessorRef s) v (nextAudioStartTimeRef s)
       (audioSourcesRef s) (awaiting s) (created s) (log s).

Definition set_nextAudioStartTimeRef (v : Q) (s : St) : St :=
  mkSt (error s) (sessionState s) (transcription s) (sessionRef s)
       (inputAudioContextRef s) (outputAudioContextRef s) (mediaStreamRef s)
       (scriptProcessorRef s) (frameIntervalRef s) v (audioSourcesRef s)
       (awaiting s) (created s) (log s).

Definition set_audioSourcesRef (v : list AudioBufferSourceNode) (s : St) : St :=
  mkSt (error s) (sessionState s) (transcription s) (sessionRef s)
       (inputAudioContextRef s) (outputAudioContextRef s) (mediaStreamRef s)
       (scriptProcessorRef s) (frameIntervalRef s) (nextAudioStartTimeRef s)
       v (awaiting s) (created s) (log s).

Definition set_awaiting (v : list Awaiting) (s : St) : St :=
  mkSt (error s) (sessionState s) (transcription s) (sessionRef s)
       (inputAudioContextRef s) (outputAudioContextRef s) (mediaStreamRef s)
       (scriptProcessorRef s) (frameIntervalRef s) (nextAudioStartTimeRef s)
       (audioSourcesRef s) v (created s) (log s).

Definition set_created (v : nat) (s : St) : St :=
  mkSt (error s) (sessionState s) (transcription s) (sessionRef s)
       (inputAudioContextRef s) (outputAudioContextRef s) (mediaStreamRef s)
       (scriptProcessorRef s) (frameIntervalRef s) (nextAudioStartTimeRef s)
       (audioSourcesRef s) (awaiting s) v (log s).

Definition set_log (v : list Effect) (s : St) : St :=
  mkSt (error s) (sessionState s) (transcription s) (sessionRef s)
       (inputAudioContextRef s) (outputAudioContextRef s) (mediaStreamRef s)
       (scriptProcessorRef s) (frameIntervalRef s) (nextAudioStartTimeRef s)
       (audioSourcesRef s) (awaiting s) (created s) v.

(** The component as first rendered. *)
Definition initial : St :=
  mkSt None Idle "" None None None None None None 0 [] [] 0 [].

Definition emit (e : Effect) (s : St) : St := set_log (log s ++ [e])%list s.

Definition emits (es : list Effect) (s : St) : St := set_log (log s ++ es)%list s.

(** [AudioContext.close()]: rejected on a context already closed. *)
Definition close (c : AudioContext) : Effect :=
  match state c with
  | closed => ContextCloseRejected c
  | _ => ContextClosed c
  end.

Definition is_closed (c : AudioContext) : bool :=
  match state c with
  | closed => true
  | _ => false
  end.

(** [cleanup]. *)
Definition cleanup (s : St) : St :=
  let s :=
    match frameIntervalRef s with
    | Some timer => set_frameIntervalRef None (emit (ClearInterval timer) s)
    | None => s
    end in
  let s :=
    match mediaStreamRef s with
    | Some stream =>
        set_mediaStreamRef None (emits (map TrackStop (getTracks stream)) s)
    | None => s
    end in
  let s :=
    match scriptProcessorRef s with
    | Some processor =>
        set_scriptProcessorRef None (emit (Disconnect processor) s)
    | None => s
    end in
  let s :=
    match inputAudioContextRef s with
    | Some c =>
        if negb (is_closed c)
        then set_inputAudioContextRef None (emit (close c) s)
        else s
    | None => s
    end in
  let s :=
    match outputAudioContextRef s with
    | Some c =>
        if negb (is_closed c)
        then set_outputAudioContextRef None (emit (close c) s)
        else s
    | None => s
    end in
  match sessionRef s with
  | Some session => set_sessionRef None (emit (SessionClose session) s)
  | None => s
  end.

(** [startCameraAndMic], once [getUserMedia] settles: with a stream, or
    with [None] when it rejects. *)
Definition startCameraAndMic (stream : option MediaStream) (s : St) : St :=
  match stream with
  | Some stream => set_mediaStreamRef (Some stream) s
  | None =>
      let s := emit (ConsoleError "Error accessing media devices:") s in
      let s :=
        setError
          (Some "Could not access camera or microphone. Please check permissions.")
          s in
      setSessionState Error s
  end.

(** Where the [try] block of [startSession] throws, if it does. *)
Inductive Throws :=
| Nowhere
| AtGoogleGenAI
| AtInputContext
| AtOutputContext
| AtConnect.

(** What the browser answers during [startSession]: whether and where
    a constructor throws, whether a new context may run at once, and the
    handle of the session promise. *)
Record Browser := mkBrowser {
  throws : Throws;
  autoplay : bool;
  session : nat
}.

Definition newAudioContext (b : Browser) (r : positive) : AudioContext :=
  mkContext r (if autoplay b then running else suspended).

Definition startSession_catch (s : St) : St :=
  let s := emit (ConsoleError "Failed to start session") s in
  let s := setError (Some "Failed to initialize AI session.") s in
  setSessionState Error s.

(** [startSession]. *)
Definition startSession (b : Browser) (s : St) : St :=
  match mediaStreamRef s with
  | None =>
      let s := setError (Some "Media stream not available.") s in
      setSessionState Error s
  | Some _ =>
      let s := setSessionState Connecting s in
      let s := setTranscription "" s in
      match throws b with
      | AtGoogleGenAI => startSession_catch s
      | AtInputContext => startSession_catch s
      | t =>
          let s := emit (NewAudioContext 16000) s in
          let s := set_inputAudioContextRef (Some (newAudioContext b 16000)) s in
          match t with
          | AtOutputContext => startSession_catch s
          | _ =>
              let s := emit (NewAudioContext 24000) s in
              let s := set_outputAudioContextRef (Some (newAudioContext b 24000)) s in
              let s := set_nextAudioStartTimeRef 0 s in
              match t with
              | AtConnect => startSession_catch s
              | _ =>
                  let s := emit (Connect (session b)) s in
                  let s := set_sessionRef (Some (session b)) s in
                  emit (SendText (session b) "What is happening in front of me?") s
              end
          end
      end
  end.

(** The [onopen] callback; [processor] and [timer] are the handles the
    browser gives to the new script processor and interval timer. *)
Definition onopen (processor : nat) (timer : positive) (s : St) : St :=
  match inputAudioContextRef s, mediaStreamRef s with
  | Some _, Some _ =>
      let s := emit (CreateScriptProcessor processor) s in
      let s := set_scriptProcessorRef (Some processor) s in
      let s := emit (SetInterval timer) s in
      let s := set_frameIntervalRef (Some timer) s in
      setSessionState Active s
  | _, _ => s
  end.

(** [message.serverContent?.outputTranscription]. *)
Definition outputTranscription_of (m : LiveServerMessage) : option Transcription :=
  match serverContent m with
  | Some content => outputTranscription content
  | None => None
  end.

(** What evaluating an expression comes to: a value, absent or not, or
    a [TypeError] thrown. *)
Inductive Outcome :=
| Returns (value : option string)
| TypeError.

(** [message.serverContent?.modelTurn?.parts[0]?.inlineData?.data]. The
    chain is optional at [serverContent], [modelTurn], [parts[0]] and
    [inlineData], and not at [parts]: indexing the [parts] of a model
    turn that has none throws. *)
Definition base64Audio (m : LiveServerMessage) : Outcome :=
  match serverContent m with
  | None => Returns None
  | Some content =>
      match modelTurn content with
      | None => Returns None
      | Some turn =>
          match parts turn with
          | None => TypeError
          | Some ps =>
              match nth_error ps 0 with
              | None => Returns None
              | Some part =>
                  match inlineData part with
                  | None => Returns None
                  | Some blob => Returns (data blob)
                  end
              end
          end
      end
  end.

(** Whether [message.serverContent?.interrupted] is truthy. *)
Definition interrupted_of (m : LiveServerMessage) : bool :=
  match serverContent m with
  | Some content =>
      match interrupted content with
      | Some flag => flag
      | None => false
      end
  | None => false
  end.

(** Truthiness of a possibly absent string. *)
Definition truthy (o : option string) : bool :=
  match o with
  | Some "" => false
  | Some _ => true
  | None => false
  end.

(** The last [if] of [onmessage]. *)
Definition onmessage_interrupted (m : LiveServerMessage) (s : St) : St :=
  if interrupted_of m then
    let s := emits (map SourceStop (audioSourcesRef s)) s in
    let s := set_audioSourcesRef [] s in
    set_nextAudioStartTimeRef 0 s
  else s.

(** [onmessage] up to [await decodeAudioData(...)], and to its end when
    the message brings no audio or no output context is held. [now] is
    [ctx.currentTime] as the handler reads it. Nothing catches what the
    handler throws: where reading the audio of the message throws, the
    call ends there, after the transcript and before the last [if]. *)
Definition onmessage (now : Q) (m : LiveServerMessage) (s : St) : St :=
  let s :=
    match outputTranscription_of m with
    | Some t => setTranscription (transcription s ++ Js.show (text t)) s
    | None => s
    end in
  match base64Audio m with
  | TypeError => s
  | Returns base64Audio =>
      match truthy base64Audio, outputAudioContextRef s with
      | true, Some ctx =>
          let s :=
            set_nextAudioStartTimeRef (Qmax (nextAudioStartTimeRef s) now) s in
          set_awaiting (awaiting s ++ [mkAwaiting m ctx])%list s
      | _, _ => onmessage_interrupted m s
      end
  end.

Definition remove_nth {A : Type} (i : nat) (l : list A) : list A :=
  (firstn i l ++ skipn (S i) l)%list.

(** The rest of [onmessage], run when the decoding awaited by the
    [i]-th waiting call settles with [audioBuffer]. The helpers [decode]
    and [decodeAudioData] of [utils/audio.ts] stand behind that buffer. *)
Definition onmessage_decoded (i : nat) (audioBuffer : AudioBuffer) (s : St) : St :=
  match nth_error (awaiting s) i with
  | None => s
  | Some k =>
      let s := set_awaiting (remove_nth i (awaiting s)) s in
      let source := mkSource (created s) audioBuffer in
      let s := set_created (S (created s)) s in
      let s := emit (SourceStart source (nextAudioStartTimeRef s)) s in
      let s :=
        set_nextAudioStartTimeRef
          (nextAudioStartTimeRef s + duration audioBuffer)%Q s in
      let s := set_audioSourcesRef (audioSourcesRef s ++ [source])%list s in
      onmessage_interrupted (message k) s
  end.

(** The end of the [i]-th waiting call when [decode] throws or the
    decoding it awaits is rejected: nothing catches that either, and the
    call is over with nothing scheduled and its last [if] not run. *)
Definition onmessage_decode_failed (i : nat) (s : St) : St :=
  set_awaiting (remove_nth i (awaiting s)) s.

(** [onmessage] when its [await] settles before anything else happens:
    the handler run from its first line to its last. *)
Definition onmessage_whole (now : Q) (m : LiveServerMessage)
           (audioBuffer : AudioBuffer) (s : St) : St :=
  onmessage_decoded (List.length (awaiting s)) audioBuffer (onmessage now m s).

(** The ['ended'] listener of a source: [audioSourcesRef.current.delete]. *)
Definition onended (n : nat) (s : St) : St :=
  set_audioSourcesRef
    (filter (fun source => negb (Nat.eqb (node source) n)) (audioSourcesRef s)) s.

(** The [onerror] callback. *)
Definition onerror (s : St) : St :=
  let s := emit (ConsoleError "Session error:") s in
  let s := setError (Some "An error occurred with the connection.") s in
  let s := setSessionState Error s in
  cleanup s.

(** The [onclose] callback. *)
Definition onclose (s : St) : St :=
  let s := setSessionState Stopped s in
  cleanup s.

(** [stopSession]. *)
Definition stopSession (s : St) : St :=
  let s := cleanup s in
  setSessionState Stopped s.

(** What can happen to the mounted component. *)
Inductive Event :=
| MediaSettled (stream : option MediaStream)
| StartSession (b : Browser)
| Opened (processor : nat) (timer : positive)
| Message (now : Q) (m : LiveServerMessage)
| Decoded (i : nat) (audioBuffer : AudioBuffer)
| DecodeFailed (i : nat)
| Ended (source : nat)
| TransportError
| Closed
| StopSession
| Unmounted.

Definition step (s : St) (e : Event) : St :=
  match e with
  | MediaSettled stream => startCameraAndMic stream s
  | StartSession b => startSession b s
  | Opened processor timer => onopen processor timer s
  | Message now m => onmessage now m s
  | Decoded i audioBuffer => onmessage_decoded i audioBuffer s
  | DecodeFailed i => onmessage_decode_failed i s
  | Ended source => onended source s
  | TransportError => onerror s
  | Closed => onclose s
  | StopSession => stopSession s
  | Unmounted => cleanup s
  end.

Definition run (evs : list Event) (s : St) : St := fold_left step evs s.

(** The playback windows asked for so far: start and duration of every
    [source.start(when)], oldest first. *)
Fixpoint windows (l : list Effect) : list (Q * Q) :=
  match l with
  | [] => []
  | SourceStart source when :: rest =>
      (when, duration (buffer source)) :: windows rest
  | _ :: rest => windows rest
  end.



(** The effects of a teardown. *)
Definition is_teardown (e : Effect) : bool :=
  match e with
  | ClearInterval _ | TrackStop _ | Disconnect _
  | ContextClosed _ | SessionClose _ => true
  | _ => false
  end.

(** The six references [cleanup] releases. *)
Definition resources (s : St) :=
  (frameIntervalRef s, mediaStreamRef s, scriptProcessorRef s,
   inputAudioContextRef s, outputAudioContextRef s, sessionRef s).

(** *** Invariants and scenarios *)

(** No reference names a closed context. *)
Definition no_closed_context (s : St) : Prop :=
  (forall c, inputAudioContextRef s = Some c -> state c <> closed) /\
  (forall c, outputAudioContextRef s = Some c -> state c <> closed).




(** A message that brings one audio fragment and nothing else. *)
Definition audio_message (payload : string) : LiveServerMessage :=
  mkMessage
    (Some (mkServerContent None
             (Some (mkContent (Some [mkPart (Some (mkBlob (Some payload)))])))
             None)).

(** The component opens its first session: the media stream settles,
    the microphone button is pressed, the connection opens. *)
Definition opening : list Event :=
  [MediaSettled (Some (mkStream [0; 1]%nat));
   StartSession (mkBrowser Nowhere true 1);
   Opened 3 7].

(** The model speaks three fragments; the second message arrives while
    the first is still being decoded, and the third after the first
    source has ended. *)
Definition three_fragments : list Event :=
  [Message (1 # 2) (audio_message "AAAA");
   Message (3 # 5) (audio_message "BBBB");
   Decoded 0 (mkBuffer 12000 24000);
   Decoded 0 (mkBuffer 6000 24000);
   Ended 0;
   Message 4 (audio_message "CCCC");
   Decoded 0 (mkBuffer 24000 24000)].

(** A session in which the model speaks these three fragments. *)
Definition spoken_session : list Event := Opened 3 7 :: three_fragments.

(** A component that holds a stream and both audio contexts, before any
    message. *)
Definition listening : St :=
  set_outputAudioContextRef (Some (mkContext 24000 running))
    (set_inputAudioContextRef (Some (mkContext 16000 running))
       (set_mediaStreamRef (Some (mkStream [0; 1]%nat)) initial)).

(** A message that signals an interruption and brings nothing else. *)
Definition barge_in : LiveServerMessage :=
  mkMessage (Some (mkServerContent None None (Some true))).


(** A message that signals an interruption and whose model turn has no
    [parts]. *)
Definition partless_barge_in : LiveServerMessage :=
  mkMessage (Some (mkServerContent None (Some (mkContent None)) (Some true))).



(** The model speaks two fragments, each decoded before anything else
    happens. *)
Definition two_fragments : list Event :=
  [Message (1 # 2) (audio_message "AAAA");
   Decoded 0 (mkBuffer 12000 24000);
   Message (3 # 5) (audio_message "BBBB");
   Decoded 0 (mkBuffer 6000 24000)].

(** The first session of the component, with two fragments scheduled. *)
Definition on_air : St := run (opening ++ two_fragments) initial.

(** Two fragments have been scheduled. *)
Definition speaking : St :=
  run [Message (1 # 2) (audio_message "AAAA");
       Decoded 0 (mkBuffer 12000 24000);
       Message (3 # 5) (audio_message "BBBB");
       Decoded 0 (mkBuffer 6000 24000)] listening.

(** Three transcript fragments, the second without text, around a
    fragment of audio and a Stop. *)
Definition dictation : list Event :=
  [Message 1 (mkMessage (Some (mkServerContent
                                 (Some (mkTranscription (Some "A dog ")))
                                 None None)));
   Message 2 (audio_message "AAAA");
   StopSession;
   Message 3 (mkMessage (Some (mkServerContent
                                 (Some (mkTranscription None))
                                 None (Some true))));
   Message 4 (mkMessage (Some (mkServerContent
                                 (Some (mkTranscription (Some " on a sofa.")))
                                 None None)))].

(** *** What the histories of the component are measured by *)

(** The transcript fragment an event brings, if any. *)
Definition fragment (e : Event) : string :=
  match e with
  | Message _ m =>
      match outputTranscription_of m with
      | Some t => Js.show (text t)
      | None => ""
      end
  | _ => ""
  end.

(** The fragments of a history, in the order of arrival. *)
Fixpoint heard (evs : list Event) : string :=
  match evs with
  | [] => ""
  | e :: rest => fragment e ++ heard rest
  end.

Definition starts_session (e : Event) : bool :=
  match e with
  | StartSession _ => true
  | _ => false
  end.

(** The effects [startSession] performs. *)
Definition is_startup (e : Effect) : bool :=
  match e with
  | NewAudioContext _ | Connect _ | SendText _ _ | ConsoleError _ => true
  | _ => false
  end.

(** The effects that are not calls on an audio source. *)
Definition silent (e : Effect) : bool :=
  match e with
  | SourceStart _ _ | SourceStop _ => false
  | _ => true
  end.

(** Reads a log from its oldest effect on, keeping the nodes on which
    [start()] was called. The reading fails, with [None], at a second
    [start()] on a node and at a [stop()] on a node that was not started:
    the two calls on which an [AudioBufferSourceNode] throws
    [InvalidStateError]. *)
Fixpoint replay (started : list nat) (l : list Effect) : option (list nat) :=
  match l with
  | [] => Some started
  | SourceStart source _ :: rest =>
      if existsb (Nat.eqb (node source)) started then None
      else replay (node source :: started) rest
  | SourceStop source :: rest =>
      if existsb (Nat.eqb (node source)) started then replay started rest
      else None
  | _ :: rest => replay started rest
  end.

(** What every history keeps about the audio sources: the log replays,
    the nodes started are among those created, and the set holds started
    sources only, each once. *)
Definition sources_inv (s : St) : Prop :=
  (exists started,
      replay [] (log s) = Some started /\
      (forall n, In n started -> (n < created s)%nat) /\
      (forall source, In source (audioSourcesRef s) -> In (node source) started)) /\
  NoDup (map node (audioSourcesRef s)) /\
  (forall source,
      In source (audioSourcesRef s) ->
      exists when, In (SourceStart source when) (log s)).

(** *** Teardown *)

Lemma Forall_teardown_tracks (tracks : list nat) :
  Forall (fun e => is_teardown e = true) (map TrackStop tracks).
Proof. induction tracks; simpl; constructor; auto. Qed.

(** Splits the state and every reference [cleanup] looks at. *)
Ltac cases_of_refs s :=
  destruct s as [? ? ? [?|] [[? [| |]]|] [[? [| |]]|] [?|] [?|] [?|] ? ? ? ? ?].

(** Closes a goal [log ++ ... = log ++ ?effects] and the claim that
    [?effects] are teardown effects. *)
Ltac log_grows :=
  unfold emit, emits; cbn; rewrite <- ?app_assoc; cbn;
  first [ reflexivity | symmetry; apply app_nil_r ].

Ltac all_teardown :=
  repeat first
    [ apply Forall_nil
    | apply Forall_cons; [reflexivity|]
    | apply Forall_app; split
    | apply Forall_teardown_tracks ].

Ltac teardown_effects := eexists; split; [ log_grows | all_teardown ].

Lemma cleanup_idempotent (s : St) : cleanup (cleanup s) = cleanup s.
Proof. cases_of_refs s; vm_compute; reflexivity. Qed.

Lemma cleanup_effects (s : St) :
  exists td, log (cleanup s) = (log s ++ td)%list /\
             Forall (fun e => is_teardown e = true) td.
Proof. cases_of_refs s; cbn; teardown_effects. Qed.

(** C6. [onerror] leaves the session state at [Error] with the
    connection error message, releases exactly what [stopSession]
    releases, by the same teardown effects after one console line, and
    performs nothing else: no context is created, no connection is
    opened, no prompt is sent, and no session or timer is held. *)
Theorem onerror_tears_down :
  forall s,
    let s' := onerror s in
    sessionState s' = Error /\
    error s' = Some "An error occurred with the connection." /\
    resources s' = resources (stopSession s) /\
    (exists td,
        log (stopSession s) = (log s ++ td)%list /\
        log s' = (log s ++ ConsoleError "Session error:" :: td)%list /\
        Forall (fun e => is_teardown e = true) td) /\
    sessionRef s' = None /\
    frameIntervalRef s' = None.
Proof.
  intros s s'. subst s'. unfold onerror, stopSession, resources.
  cases_of_refs s; cbn;
    (split; [reflexivity|]); (split; [reflexivity|]); (split; [reflexivity|]);
    (split;
     [ eexists; split; [ log_grows | split; [ log_grows | all_teardown ] ]
     | split; reflexivity ]).
Qed.

Lemma cleanup_setSessionState (v : SessionState) (s : St) :
  cleanup (setSessionState v s) = setSessionState v (cleanup s).
Proof. cases_of_refs s; vm_compute; reflexivity. Qed.

(** X2. A transport error does not leave the session state at [Error]
    for good. [onerror] itself calls [close()] on the session it holds,
    which makes that session's [onclose] callback run; that callback
    moves the state on to [Stopped], keeps the connection error message
    and, everything having been released by [onerror], performs no effect
    and changes no reference, source or clock. *)
Theorem onclose_after_onerror :
  forall s,
    let failed := onerror s in
    let s' := onclose failed in
    (forall session,
        sessionRef s = Some session -> In (SessionClose session) (log failed)) /\
    sessionState failed = Error /\
    s' = setSessionState Stopped failed /\
    sessionState s' = Stopped /\
    error s' = Some "An error occurred with the connection." /\
    log s' = log failed.
Proof.
  intros s failed s'. subst failed s'.
  assert (Hclose : onclose (onerror s) = setSessionState Stopped (onerror s)).
  { unfold onclose, onerror.
    rewrite cleanup_setSessionState, cleanup_idempotent. reflexivity. }
  split.
  - intros session Hsession. unfold onerror.
    revert Hsession. cases_of_refs s; cbn; intros Hsession;
      try discriminate Hsession; injection Hsession as <-;
      unfold emit, emits; cbn;
      apply in_or_app; right; cbn; rewrite ?in_app_iff; cbn; auto 10.
  - split; [unfold onerror; cases_of_refs s; vm_compute; reflexivity|].
    split; [exact Hclose|]. rewrite Hclose. cbn.
    split; [reflexivity|]. split; [|reflexivity].
    unfold onerror. cases_of_refs s; vm_compute; reflexivity.
Qed.

Lemma onclose_after_onerror_witness :
  let failed := onerror (run opening initial) in
  In (SessionClose 1) (log failed) /\
  sessionState failed = Error /\
  sessionState (onclose failed) = Stopped /\
  error (onclose failed) = Some "An error occurred with the connection." /\
  log (onclose failed) = log failed.
Proof.
  destruct (onclose_after_onerror (run opening initial))
    as (Hasked & Hfailed & _ & Hstopped & Herror & Hlog).
  cbv zeta. split; [apply Hasked; reflexivity|].
  split; [exact Hfailed|]. split; [exact Hstopped|].
  split; [exact Herror | exact Hlog].
Defined.

Lemma startSession_no_stream (b : Browser) (s : St) :
  mediaStreamRef s = None ->
  startSession b s =
  setSessionState Error (setError (Some "Media stream not available.") s).
Proof. intros Hnone. unfold startSession. now rewrite Hnone. Qed.

(** C10. With no media stream held, [startSession] sets the message
    "Media stream not available." and the state [Error], and does
    nothing else: it performs no effect (no audio context is created, no
    session is opened) and leaves every reference as it was, null ones
    null. *)
Theorem startSession_without_stream :
  forall b s,
    mediaStreamRef s = None ->
    let s' := startSession b s in
    error s' = Some "Media stream not available." /\
    sessionState s' = Error /\
    log s' = log s /\
    resources s' = resources s /\
    nextAudioStartTimeRef s' = nextAudioStartTimeRef s /\
    audioSourcesRef s' = audioSourcesRef s /\
    transcription s' = transcription s.
Proof.
  intros b s Hnone s'. subst s'.
  rewrite (startSession_no_stream b s Hnone).
  unfold resources. cbn. repeat split.
Qed.

Lemma startSession_without_stream_witness :
  let s' := startSession (mkBrowser Nowhere true 1) initial in
  error s' = Some "Media stream not available." /\
  sessionState s' = Error /\
  log s' = [] /\
  resources s' = (None, None, None, None, None, None).
Proof.
  destruct (startSession_without_stream (mkBrowser Nowhere true 1) initial eq_refl)
    as (He & Hs & Hl & Hr & _).
  cbv zeta. repeat split; assumption.
Defined.

(** X1. Once stopped, the stream is released; the next press of the
    microphone button therefore ends in the [Error] state. *)
Example start_after_stop (b : Browser) (s : St) :
  sessionState (startSession b (stopSession s)) = Error /\
  error (startSession b (stopSession s)) = Some "Media stream not available.".
Proof.
  assert (Hnone : mediaStreamRef (stopSession s) = None)
    by (cases_of_refs s; vm_compute; reflexivity).
  rewrite (startSession_no_stream b _ Hnone). split; reflexivity.
Qed.

(** *** Playback order *)





















Lemma nth_error_snoc {A : Type} (l : list A) (a : A) :
  nth_error (l ++ [a]) (List.length l) = Some a.
Proof.
  rewrite nth_error_app2 by lia. now rewrite Nat.sub_diag.
Qed.

(** [onmessage] on a message that brings audio while an output context
    is held: up to its [await]. *)
Lemma onmessage_audio (now : Q) (m : LiveServerMessage) (data : option string)
      (s : St) (c : AudioContext) :
  base64Audio m = Returns data ->
  truthy data = true ->
  outputAudioContextRef s = Some c ->
  nextAudioStartTimeRef (onmessage now m s) = Qmax (nextAudioStartTimeRef s) now /\
  awaiting (onmessage now m s) = (awaiting s ++ [mkAwaiting m c])%list /\
  audioSourcesRef (onmessage now m s) = audioSourcesRef s /\
  created (onmessage now m s) = created s /\
  log (onmessage now m s) = log s.
Proof.
  intros Hread Haudio Hctx. unfold onmessage. rewrite Hread.
  destruct (outputTranscription_of m) as [t|]; cbn; rewrite Haudio, Hctx; cbn;
    repeat split.
Qed.

(** [onmessage] from its [await] on, up to its interruption test. *)
Lemma onmessage_decoded_schedules (i : nat) (k : Awaiting)
      (audioBuffer : AudioBuffer) (s : St) :
  nth_error (awaiting s) i = Some k ->
  exists mid,
    onmessage_decoded i audioBuffer s = onmessage_interrupted (message k) mid /\
    log mid =
      (log s ++ [SourceStart (mkSource (created s) audioBuffer)
                             (nextAudioStartTimeRef s)])%list /\
    nextAudioStartTimeRef mid =
      (nextAudioStartTimeRef s + duration audioBuffer)%Q /\
    audioSourcesRef mid =
      (audioSourcesRef s ++ [mkSource (created s) audioBuffer])%list /\
    awaiting mid = remove_nth i (awaiting s).
Proof.
  intros Hk. unfold onmessage_decoded. rewrite Hk.
  eexists. split; [reflexivity|]. cbn. repeat split.
Qed.

(** The handler run from first line to last on a message that brings
    audio, up to its interruption test. *)
Lemma onmessage_whole_audio (now : Q) (m : LiveServerMessage)
      (data : option string) (audioBuffer : AudioBuffer) (s : St)
      (c : AudioContext) :
  base64Audio m = Returns data ->
  truthy data = true ->
  outputAudioContextRef s = Some c ->
  exists mid,
    onmessage_whole now m audioBuffer s = onmessage_interrupted m mid /\
    log mid =
      (log s ++ [SourceStart (mkSource (created s) audioBuffer)
                             (Qmax (nextAudioStartTimeRef s) now)])%list /\
    nextAudioStartTimeRef mid =
      (Qmax (nextAudioStartTimeRef s) now + duration audioBuffer)%Q /\
    audioSourcesRef mid =
      (audioSourcesRef s ++ [mkSource (created s) audioBuffer])%list.
Proof.
  intros Hread Haudio Hctx.
  destruct (onmessage_audio now m data s c Hread Haudio Hctx)
    as (Hnext & Hwait & Hsrc & Hcreated & Hlog).
  unfold onmessage_whole.
  destruct (onmessage_decoded_schedules (List.length (awaiting s))
              (mkAwaiting m c) audioBuffer (onmessage now m s))
    as (mid & Heq & Hl & Hn & Ha & _).
  { rewrite Hwait. apply nth_error_snoc. }
  exists mid. rewrite Heq, Hl, Hn, Ha, Hnext, Hsrc, Hcreated, Hlog. cbn.
  repeat split.
Qed.



Example spoken_session_windows :
  windows (log (run spoken_session listening)) =
  [(3 # 5, 12000 # 24000); ((3 # 5) + (12000 # 24000), 6000 # 24000);
   (4, 24000 # 24000)]%Q.
Proof. reflexivity. Qed.


(** *** Interruption *)

(** What the last [if] of [onmessage] does when the signal is set. *)
Lemma onmessage_interrupted_clears (m : LiveServerMessage) (s : St) :
  interrupted_of m = true ->
  audioSourcesRef (onmessage_interrupted m s) = [] /\
  nextAudioStartTimeRef (onmessage_interrupted m s) = 0%Q /\
  log (onmessage_interrupted m s) =
    (log s ++ map SourceStop (audioSourcesRef s))%list.
Proof. intros Hflag. unfold onmessage_interrupted. rewrite Hflag. cbn. auto. Qed.

(** [onmessage] on a message that has a model turn without [parts]:
    the transcript is appended to, and that is all. *)
Lemma onmessage_without_parts (now : Q) (m : LiveServerMessage) (s : St) :
  base64Audio m = TypeError ->
  onmessage now m s =
  match outputTranscription_of m with
  | Some t => setTranscription (transcription s ++ Js.show (text t)) s
  | None => s
  end.
Proof. intros Hread. unfold onmessage. rewrite Hread. reflexivity. Qed.

(** C2. Where the code parts from the claim: a message whose model turn
    has no [parts] makes [onmessage] throw while it reads the audio,
    before its interruption test. Whether or not the interruption signal
    is set, no [stop()] is called, the set of sources is left as it was,
    and so are the next start time and the calls waiting for their
    decoding. *)
Theorem interruption_test_not_reached :
  forall now m content turn s,
    serverContent m = Some content ->
    modelTurn content = Some turn ->
    parts turn = None ->
    let s' := onmessage now m s in
    base64Audio m = TypeError /\
    audioSourcesRef s' = audioSourcesRef s /\
    nextAudioStartTimeRef s' = nextAudioStartTimeRef s /\
    awaiting s' = awaiting s /\
    log s' = log s.
Proof.
  intros now m content turn s Hcontent Hturn Hparts s'. subst s'.
  assert (Hread : base64Audio m = TypeError).
  { unfold base64Audio. rewrite Hcontent, Hturn, Hparts. reflexivity. }
  split; [exact Hread|].
  rewrite (onmessage_without_parts now m s Hread).
  destruct (outputTranscription_of m); cbn; auto.
Qed.

Lemma interruption_test_not_reached_witness :
  let s' := onmessage (4 # 5) partless_barge_in on_air in
  interrupted_of partless_barge_in = true /\
  audioSourcesRef s' =
    [mkSource 0 (mkBuffer 12000 24000); mkSource 1 (mkBuffer 6000 24000)] /\
  nextAudioStartTimeRef s' =
    ((1 # 2) + (12000 # 24000) + (6000 # 24000))%Q /\
  ~ (nextAudioStartTimeRef s' == 0)%Q /\
  log s' = log on_air.
Proof.
  destruct (interruption_test_not_reached (4 # 5) partless_barge_in
              (mkServerContent None (Some (mkContent None)) (Some true))
              (mkContent None) on_air eq_refl eq_refl eq_refl)
    as (_ & Hsources & Hnext & _ & Hlog).
  cbv zeta. split; [reflexivity|].
  rewrite Hsources, Hnext.
  split; [vm_compute; reflexivity|]. split; [vm_compute; reflexivity|].
  split; [|exact Hlog].
  intros Hzero. vm_compute in Hzero. discriminate Hzero.
Defined.

(** X19. Where [onmessage] reaches its last [if] with the interruption
    signal set (at once when reading the audio of the message does not
    throw and the message schedules no audio, else when the decoding
    awaited settles), [stop()] has been called on every source of the
    set, the one just scheduled included, the set is empty and the next
    start time is exactly zero. When the decoding fails instead, the call
    ends with nothing stopped and nothing reset. *)
Theorem interruption_clears_playback :
  forall m,
    interrupted_of m = true ->
    (forall s,
        let s' := onmessage_interrupted m s in
        audioSourcesRef s' = [] /\
        nextAudioStartTimeRef s' = 0%Q /\
        log s' = (log s ++ map SourceStop (audioSourcesRef s))%list) /\
    (forall now data s,
        base64Audio m = Returns data ->
        truthy data = false \/ outputAudioContextRef s = None ->
        let s' := onmessage now m s in
        audioSourcesRef s' = [] /\
        nextAudioStartTimeRef s' = 0%Q /\
        log s' = (log s ++ map SourceStop (audioSourcesRef s))%list) /\
    (forall i audioBuffer s k,
        nth_error (awaiting s) i = Some k ->
        message k = m ->
        let s' := onmessage_decoded i audioBuffer s in
        let source := mkSource (created s) audioBuffer in
        audioSourcesRef s' = [] /\
        nextAudioStartTimeRef s' = 0%Q /\
        log s' =
          (log s ++ SourceStart source (nextAudioStartTimeRef s)
                 :: map SourceStop (audioSourcesRef s ++ [source]))%list) /\
    (forall now data audioBuffer s c,
        base64Audio m = Returns data ->
        truthy data = true ->
        outputAudioContextRef s = Some c ->
        let s' := onmessage_whole now m audioBuffer s in
        audioSourcesRef s' = [] /\
        nextAudioStartTimeRef s' = 0%Q /\
        forall source,
          In source (audioSourcesRef s) -> In (SourceStop source) (log s')) /\
    (forall now data s c,
        base64Audio m = Returns data ->
        truthy data = true ->
        outputAudioContextRef s = Some c ->
        let s' := onmessage_decode_failed (List.length (awaiting s)) (onmessage now m s) in
        audioSourcesRef s' = audioSourcesRef s /\
        nextAudioStartTimeRef s' = Qmax (nextAudioStartTimeRef s) now /\
        log s' = log s).
Proof.
  intros m Hflag.
  pose proof (onmessage_interrupted_clears m) as Hint.
  split; [intros s; apply Hint, Hflag|]. split; [|split; [|split]].
  - intros now data s Hread Hnone s'. subst s'. unfold onmessage. rewrite Hread.
    set (s1 := match outputTranscription_of m with
               | Some t => setTranscription (transcription s ++ Js.show (text t)) s
               | None => s
               end).
    assert (Hsame : audioSourcesRef s1 = audioSourcesRef s /\ log s1 = log s /\
                    outputAudioContextRef s1 = outputAudioContextRef s).
    { subst s1. destruct (outputTranscription_of m); cbn; auto. }
    destruct Hsame as (Hsrc & Hlog & Hctx).
    rewrite <- Hsrc, <- Hlog.
    destruct Hnone as [Hnone | Hnone].
    + rewrite Hnone. apply Hint, Hflag.
    + rewrite Hctx, Hnone. destruct (truthy data); apply Hint, Hflag.
  - intros i audioBuffer s k Hk Hm s' source. subst s' source.
    destruct (onmessage_decoded_schedules i k audioBuffer s Hk)
      as (mid & -> & Hl & _ & Ha & _).
    rewrite Hm. destruct (Hint mid Hflag) as (H1 & H2 & H3).
    split; [exact H1|]. split; [exact H2|].
    rewrite H3, Hl, Ha, <- app_assoc. reflexivity.
  - intros now data audioBuffer s c Hread Haudio Hctx s'. subst s'.
    destruct (onmessage_whole_audio now m data audioBuffer s c Hread Haudio Hctx)
      as (mid & -> & Hlog & _ & Hsrc).
    destruct (Hint mid Hflag) as (H1 & H2 & H3).
    split; [exact H1|]. split; [exact H2|].
    intros source Hin. rewrite H3, Hsrc. apply in_or_app. right.
    apply in_map, in_or_app. left. exact Hin.
  - intros now data s c Hread Haudio Hctx s'. subst s'.
    destruct (onmessage_audio now m data s c Hread Haudio Hctx)
      as (Hnext & _ & Hsrc & _ & Hlog).
    unfold onmessage_decode_failed. cbn. auto.
Qed.

Lemma interruption_clears_playback_witness :
  let s' := onmessage (4 # 5) barge_in on_air in
  audioSourcesRef on_air =
    [mkSource 0 (mkBuffer 12000 24000); mkSource 1 (mkBuffer 6000 24000)] /\
  audioSourcesRef s' = [] /\
  nextAudioStartTimeRef s' = 0%Q /\
  log s' = (log on_air ++ map SourceStop (audioSourcesRef on_air))%list.
Proof.
  split; [vm_compute; reflexivity|].
  apply (proj1 (proj2 (interruption_clears_playback barge_in eq_refl)) (4 # 5) None).
  - reflexivity.
  - left. reflexivity.
Defined.

(** *** What [cleanup] leaves alone, and what it releases *)

Ltac break_matches :=
  repeat match goal with
    | |- context [match ?x with _ => _ end] => destruct x eqn:?; cbn
    end.

Lemma cleanup_keeps (s : St) :
  error (cleanup s) = error s /\
  sessionState (cleanup s) = sessionState s /\
  transcription (cleanup s) = transcription s /\
  nextAudioStartTimeRef (cleanup s) = nextAudioStartTimeRef s /\
  audioSourcesRef (cleanup s) = audioSourcesRef s /\
  awaiting (cleanup s) = awaiting s /\
  created (cleanup s) = created s.
Proof. cases_of_refs s; vm_compute; repeat split. Qed.

Lemma cleanup_releases (s : St) :
  frameIntervalRef (cleanup s) = None /\
  mediaStreamRef (cleanup s) = None /\
  scriptProcessorRef (cleanup s) = None /\
  sessionRef (cleanup s) = None.
Proof. cases_of_refs s; vm_compute; repeat split. Qed.

Lemma cleanup_contexts (s : St) :
  (inputAudioContextRef (cleanup s) = None \/
   inputAudioContextRef (cleanup s) = inputAudioContextRef s) /\
  (outputAudioContextRef (cleanup s) = None \/
   outputAudioContextRef (cleanup s) = outputAudioContextRef s).
Proof.
  cases_of_refs s; vm_compute; split;
    first [ left; reflexivity | right; reflexivity ].
Qed.

Lemma cleanup_releases_all (s : St) :
  no_closed_context s ->
  resources (cleanup s) = (None, None, None, None, None, None).
Proof.
  unfold no_closed_context, resources.
  cases_of_refs s; cbn; intros [Hin Hout]; try reflexivity;
    try (exfalso; eapply Hin; reflexivity);
    try (exfalso; eapply Hout; reflexivity).
Qed.

Lemma no_closed_context_same (s s' : St) :
  inputAudioContextRef s' = inputAudioContextRef s ->
  outputAudioContextRef s' = outputAudioContextRef s ->
  no_closed_context s -> no_closed_context s'.
Proof. unfold no_closed_context. intros -> ->. auto. Qed.

Lemma cleanup_no_closed_context (s : St) :
  no_closed_context s -> no_closed_context (cleanup s).
Proof.
  unfold no_closed_context. intros [Hin Hout].
  destruct (cleanup_contexts s) as [[-> | ->] [-> | ->]];
    split; (discriminate || assumption).
Qed.

Lemma newAudioContext_open (b : Browser) (r : positive) :
  state (newAudioContext b r) <> closed.
Proof. unfold newAudioContext. destruct (autoplay b); discriminate. Qed.

Lemma startSession_no_closed_context (b : Browser) (s : St) :
  no_closed_context s -> no_closed_context (startSession b s).
Proof.
  unfold no_closed_context, startSession, startSession_catch. intros [Hin Hout].
  destruct (mediaStreamRef s); [|cbn; auto].
  destruct (throws b); cbn; split; intros c Hc;
    try (injection Hc as <-; apply newAudioContext_open);
    auto.
Qed.

Lemma step_no_closed_context (s : St) (e : Event) :
  no_closed_context s -> no_closed_context (step s e).
Proof.
  intros Hs. destruct e; cbn.
  - apply (no_closed_context_same s); [| |exact Hs];
      unfold startCameraAndMic; destruct stream; reflexivity.
  - apply startSession_no_closed_context, Hs.
  - apply (no_closed_context_same s); [| |exact Hs];
      unfold onopen; break_matches; congruence.
  - apply (no_closed_context_same s); [| |exact Hs];
      unfold onmessage, onmessage_interrupted; break_matches; congruence.
  - apply (no_closed_context_same s); [| |exact Hs];
      unfold onmessage_decoded, onmessage_interrupted; break_matches; congruence.
  - exact Hs.
  - exact Hs.
  - unfold onerror. apply cleanup_no_closed_context. exact Hs.
  - unfold onclose. apply cleanup_no_closed_context. exact Hs.
  - unfold stopSession.
    apply (no_closed_context_same (cleanup s)); [reflexivity | reflexivity |].
    apply cleanup_no_closed_context, Hs.
  - apply cleanup_no_closed_context, Hs.
Qed.

Lemma run_no_closed_context (evs : list Event) (s : St) :
  no_closed_context s -> no_closed_context (run evs s).
Proof.
  revert s. induction evs as [|e evs IH]; intros s Hs; [exact Hs|].
  cbn. apply IH, step_no_closed_context, Hs.
Qed.



(** X7. In no state that the component reaches from its first render
    does a reference name a closed audio context; so after [cleanup], and
    after [stopSession], the frame timer, the media stream, the script
    processor, both audio contexts and the session are all null. *)
Theorem reachable_cleanup_releases_all :
  forall evs,
    let s := run evs initial in
    no_closed_context s /\
    resources (cleanup s) = (None, None, None, None, None, None) /\
    resources (stopSession s) = (None, None, None, None, None, None).
Proof.
  intros evs s.
  assert (Hs : no_closed_context s).
  { apply run_no_closed_context. split; intros c Hc; discriminate Hc. }
  split; [exact Hs|]. split.
  - apply cleanup_releases_all, Hs.
  - unfold stopSession. apply (cleanup_releases_all s Hs).
Qed.

(** *** A session that opens late *)

(** X8. An [onopen] that arrives after [cleanup] (after Stop, after an
    error, after the closing of an earlier session, after unmounting)
    changes nothing: no script processor is created and no frame timer is
    installed, and the session state is not moved to [Active]. *)
Theorem onopen_after_cleanup :
  forall processor timer s,
    onopen processor timer (cleanup s) = cleanup s /\
    onopen processor timer (stopSession s) = stopSession s /\
    onopen processor timer (onerror s) = onerror s /\
    onopen processor timer (onclose s) = onclose s.
Proof.
  intros processor timer s.
  assert (Hnone : forall s0, mediaStreamRef s0 = None ->
                             onopen processor timer s0 = s0).
  { intros s0 H0. unfold onopen. rewrite H0.
    destruct (inputAudioContextRef s0); reflexivity. }
  repeat split; apply Hnone.
  - apply cleanup_releases.
  - unfold stopSession. cbn. apply cleanup_releases.
  - unfold onerror. apply cleanup_releases.
  - unfold onclose. apply cleanup_releases.
Qed.

(** *** What [startSession] does not do *)

Lemma startSession_effects (b : Browser) (s : St) :
  exists es,
    log (startSession b s) = (log s ++ es)%list /\
    Forall (fun e => is_startup e = true) es.
Proof.
  unfold startSession, startSession_catch.
  destruct (mediaStreamRef s); [|exists []; cbn; rewrite app_nil_r; auto].
  destruct (throws b); cbn; unfold emit; cbn; rewrite <- ?app_assoc; cbn;
    eexists; (split; [reflexivity|]); repeat constructor.
Qed.

(** X9. [startSession] performs no teardown: it closes no context and
    no session, stops no track and clears no timer, so the contexts and
    the session a reference held before are replaced as they are. When
    the connection attempt throws, the state is [Error] while both audio
    contexts just created are open and still referenced, and the media
    stream is still held. *)
Theorem startSession_releases_nothing :
  (forall b s,
      exists es,
        log (startSession b s) = (log s ++ es)%list /\
        Forall (fun e => is_teardown e = false) es) /\
  (forall b s stream,
      mediaStreamRef s = Some stream ->
      throws b = AtConnect ->
      let s' := startSession b s in
      sessionState s' = Error /\
      error s' = Some "Failed to initialize AI session." /\
      inputAudioContextRef s' = Some (newAudioContext b 16000) /\
      outputAudioContextRef s' = Some (newAudioContext b 24000) /\
      no_closed_context s' /\
      mediaStreamRef s' = Some stream /\
      sessionRef s' = sessionRef s).
Proof.
  split.
  - intros b s. destruct (startSession_effects b s) as (es & Hlog & Hes).
    exists es. split; [exact Hlog|].
    revert Hes. apply Forall_impl. intros e. destruct e; cbn; congruence.
  - intros b s stream Hstream Hthrows s'. subst s'.
    unfold startSession, startSession_catch, no_closed_context.
    rewrite Hstream, Hthrows. cbn. rewrite Hstream.
    repeat split; try reflexivity;
      intros c Hc; injection Hc as <-; apply newAudioContext_open.
Qed.

Lemma startSession_releases_nothing_witness :
  let s' := startSession (mkBrowser AtConnect true 1) listening in
  sessionState s' = Error /\
  inputAudioContextRef s' = Some (mkContext 16000 running) /\
  outputAudioContextRef s' = Some (mkContext 24000 running).
Proof.
  destruct (proj2 startSession_releases_nothing
              (mkBrowser AtConnect true 1) listening (mkStream [0; 1]%nat)
              eq_refl eq_refl)
    as (Hstate & _ & Hin & Hout & _).
  cbv zeta. repeat split; assumption.
Defined.

(** *** The transcript *)

Lemma append_empty (a : string) : a ++ "" = a.
Proof. induction a as [|c a IH]; cbn; congruence. Qed.

Lemma append_append (a b c : string) : (a ++ b) ++ c = a ++ (b ++ c).
Proof. induction a as [|x a IH]; cbn; congruence. Qed.

Lemma step_transcription (s : St) (e : Event) :
  starts_session e = false ->
  transcription (step s e) = transcription s ++ fragment e.
Proof.
  intros He. destruct e; try discriminate He; cbn; rewrite ?append_empty.
  - unfold startCameraAndMic. destruct stream; reflexivity.
  - unfold onopen. break_matches; congruence.
  - unfold onmessage, onmessage_interrupted.
    destruct (outputTranscription_of m); cbn; break_matches; cbn;
      rewrite ?append_empty; reflexivity.
  - unfold onmessage_decoded, onmessage_interrupted. break_matches; congruence.
  - reflexivity.
  - reflexivity.
  - unfold onerror. destruct (cleanup_keeps
      (setSessionState Error
         (setError (Some "An error occurred with the connection.")
            (emit (ConsoleError "Session error:") s)))) as (_ & _ & -> & _).
    reflexivity.
  - unfold onclose.
    destruct (cleanup_keeps (setSessionState Stopped s)) as (_ & _ & -> & _).
    reflexivity.
  - unfold stopSession. cbn. apply cleanup_keeps.
  - apply cleanup_keeps.
Qed.

(** X10. The transcript shown is the transcript at the start followed
    by the fragments of all messages, in their order of arrival: none is
    dropped or reordered, whether or not audio is being decoded, an
    interruption is signalled, or the session has been stopped or has
    failed; an absent [text] reads "undefined". Only [startSession], with
    a media stream held, empties it. *)
Theorem transcript_accumulates :
  (forall evs s,
      forallb (fun e => negb (starts_session e)) evs = true ->
      transcription (run evs s) = transcription s ++ heard evs) /\
  (forall b s stream,
      mediaStreamRef s = Some stream ->
      transcription (startSession b s) = "").
Proof.
  split.
  - induction evs as [|e evs IH]; intros s Hall; cbn.
    + now rewrite append_empty.
    + cbn in Hall. apply andb_true_iff in Hall as [He Hevs].
      rewrite (IH _ Hevs), step_transcription by now apply negb_true_iff.
      apply append_append.
  - intros b s stream Hstream. unfold startSession, startSession_catch.
    rewrite Hstream. destruct (throws b); reflexivity.
Qed.

Lemma transcript_accumulates_witness :
  transcription (run dictation listening) = "A dog undefined on a sofa.".
Proof.
  exact (proj1 transcript_accumulates dictation listening eq_refl).
Defined.

(** *** A decoding that outlives an interruption *)

(** X11. An interruption does not cancel an [onmessage] call that is
    waiting for its decoding. When that call resumes after an
    interruption has been handled (by a message that brings no audio),
    its source is started with [when] equal to 0, whatever the audio
    clock reads, and it is the only source in the set. *)
Theorem decoding_outlives_interruption :
  forall now m data i k audioBuffer s,
    nth_error (awaiting s) i = Some k ->
    interrupted_of (message k) = false ->
    interrupted_of m = true ->
    base64Audio m = Returns data ->
    truthy data = false ->
    let s' := onmessage_decoded i audioBuffer (onmessage now m s) in
    let source := mkSource (created s) audioBuffer in
    log s' =
      (log s ++ map SourceStop (audioSourcesRef s) ++ [SourceStart source 0])%list /\
    audioSourcesRef s' = [source] /\
    nextAudioStartTimeRef s' = (0 + duration audioBuffer)%Q.
Proof.
  intros now m data i k audioBuffer s Hk Hquiet Hflag Hread Hnone s' source.
  subst s' source.
  unfold onmessage. rewrite Hread, Hnone.
  set (s1 := match outputTranscription_of m with
             | Some t => setTranscription (transcription s ++ Js.show (text t)) s
             | None => s
             end).
  assert (Hsame : awaiting s1 = awaiting s /\ log s1 = log s /\
                  audioSourcesRef s1 = audioSourcesRef s /\
                  created s1 = created s).
  { subst s1. destruct (outputTranscription_of m); cbn; auto. }
  destruct Hsame as (Hw & Hl & Hsrc & Hc).
  unfold onmessage_interrupted. rewrite Hflag.
  unfold onmessage_decoded. cbn. rewrite Hw, Hk. cbn.
  unfold onmessage_interrupted. rewrite Hquiet. cbn.
  rewrite Hl, Hsrc, Hc, <- app_assoc. auto.
Qed.

Lemma decoding_outlives_interruption_witness :
  let waiting := step speaking (Message (7 # 10) (audio_message "CCCC")) in
  let s' :=
    onmessage_decoded 0 (mkBuffer 2400 24000)
      (onmessage (4 # 5) barge_in waiting) in
  nextAudioStartTimeRef waiting = ((1 # 2) + (12000 # 24000) + (6000 # 24000))%Q /\
  audioSourcesRef s' = [mkSource 2 (mkBuffer 2400 24000)] /\
  windows (log s') =
    [(1 # 2, 12000 # 24000); ((1 # 2) + (12000 # 24000), 6000 # 24000);
     (0, 2400 # 24000)]%Q.
Proof.
  destruct (decoding_outlives_interruption (4 # 5) barge_in None 0
              (mkAwaiting (audio_message "CCCC") (mkContext 24000 running))
              (mkBuffer 2400 24000)
              (step speaking (Message (7 # 10) (audio_message "CCCC")))
              eq_refl eq_refl eq_refl eq_refl eq_refl)
    as (Hlog & Hsources & _).
  cbv zeta. split; [|split; [exact Hsources|]].
  - vm_compute. reflexivity.
  - rewrite Hlog. vm_compute. reflexivity.
Defined.

(** *** Calls on the audio sources *)

Lemma replay_app (started : list nat) (l1 l2 : list Effect) :
  replay started (l1 ++ l2) =
  match replay started l1 with
  | Some after => replay after l2
  | None => None
  end.
Proof.
  revert started. induction l1 as [|e l1 IH]; intros started; [reflexivity|].
  destruct e; cbn; try apply IH.
  - destruct (existsb (Nat.eqb (node source)) started); [reflexivity | apply IH].
  - destruct (existsb (Nat.eqb (node source)) started); [apply IH | reflexivity].
Qed.

Lemma replay_silent (started : list nat) (es : list Effect) :
  Forall (fun e => silent e = true) es -> replay started es = Some started.
Proof.
  induction 1 as [|e es He _ IH]; [reflexivity|].
  destruct e; cbn in He |- *; try discriminate He; exact IH.
Qed.

Lemma existsb_node (n : nat) (started : list nat) :
  In n started -> existsb (Nat.eqb n) started = true.
Proof.
  intros Hin. apply existsb_exists. exists n. split; [exact Hin | apply Nat.eqb_refl].
Qed.

Lemma replay_stops (started : list nat) (sources : list AudioBufferSourceNode) :
  (forall source, In source sources -> In (node source) started) ->
  replay started (map SourceStop sources) = Some started.
Proof.
  induction sources as [|a sources IH]; intros Hin; [reflexivity|].
  cbn. rewrite existsb_node by (apply Hin; left; reflexivity).
  apply IH. intros source Hs. apply Hin. right. exact Hs.
Qed.

Lemma NoDup_map_filter {A B : Type} (f : A -> B) (g : A -> bool) (l : list A) :
  NoDup (map f l) -> NoDup (map f (filter g l)).
Proof.
  induction l as [|a l IH]; cbn; intros Hnd; [constructor|].
  inversion Hnd as [|b bs Hnotin Hrest]; subst.
  destruct (g a); cbn; [|apply IH, Hrest].
  constructor; [|apply IH, Hrest].
  intros Hin. apply Hnotin. apply in_map_iff in Hin as (a' & Ha' & Hin).
  apply in_map_iff. exists a'. split; [exact Ha'|].
  apply filter_In in Hin. apply Hin.
Qed.

Lemma sources_inv_quiet (s s' : St) :
  created s' = created s ->
  audioSourcesRef s' = audioSourcesRef s ->
  (exists es, log s' = (log s ++ es)%list /\ Forall (fun e => silent e = true) es) ->
  sources_inv s -> sources_inv s'.
Proof.
  unfold sources_inv.
  intros Hc Hsrc (es & Hl & Hes) ((started & Hr & Hb & Hin) & Hnd & Hstarted).
  rewrite Hc, Hsrc, Hl. split; [|split].
  - exists started. rewrite replay_app, Hr. split; [apply replay_silent, Hes | auto].
  - exact Hnd.
  - intros source Hs. destruct (Hstarted source Hs) as [when Hw].
    exists when. apply in_or_app. left. exact Hw.
Qed.

Lemma sources_inv_interrupted (m : LiveServerMessage) (s : St) :
  sources_inv s -> sources_inv (onmessage_interrupted m s).
Proof.
  unfold onmessage_interrupted. destruct (interrupted_of m); [|auto].
  unfold sources_inv. intros ((started & Hr & Hb & Hin) & _ & _). cbn.
  split; [|split].
  - exists started. rewrite replay_app, Hr.
    split; [apply replay_stops, Hin|]. split; [exact Hb|]. intros source [].
  - constructor.
  - intros source [].
Qed.

Lemma sources_inv_cleanup (s : St) : sources_inv s -> sources_inv (cleanup s).
Proof.
  destruct (cleanup_keeps s) as (_ & _ & _ & _ & Hsrc & _ & Hc).
  apply sources_inv_quiet; [exact Hc | exact Hsrc |].
  destruct (cleanup_effects s) as (td & Hl & Htd).
  exists td. split; [exact Hl|].
  revert Htd. apply Forall_impl. intros e. destruct e; cbn; congruence.
Qed.

Lemma sources_inv_onmessage (now : Q) (m : LiveServerMessage) (s : St) :
  sources_inv s -> sources_inv (onmessage now m s).
Proof.
  intros Hs. unfold onmessage.
  set (s1 := match outputTranscription_of m with
             | Some t => setTranscription (transcription s ++ Js.show (text t)) s
             | None => s
             end).
  assert (Hs1 : sources_inv s1).
  { subst s1. destruct (outputTranscription_of m); [|exact Hs].
    revert Hs. apply sources_inv_quiet; try reflexivity.
    exists []. cbn. rewrite app_nil_r. auto. }
  destruct (base64Audio m) as [data|]; [|exact Hs1].
  destruct (truthy data); [|apply sources_inv_interrupted, Hs1].
  destruct (outputAudioContextRef s1); [|apply sources_inv_interrupted, Hs1].
  revert Hs1. apply sources_inv_quiet; try reflexivity.
  exists []. cbn. rewrite app_nil_r. auto.
Qed.

Lemma sources_inv_onmessage_decoded (i : nat) (b : AudioBuffer) (s : St) :
  sources_inv s -> sources_inv (onmessage_decoded i b s).
Proof.
  intros Hs. unfold onmessage_decoded.
  destruct (nth_error (awaiting s) i) as [k|]; [|exact Hs].
  apply sources_inv_interrupted.
  destruct Hs as ((started & Hr & Hb & Hin) & Hnd & Hstarted).
  assert (Hfresh : ~ In (created s) started).
  { intros Hc. apply Hb in Hc. lia. }
  unfold sources_inv. cbn. split; [|split].
  - exists (created s :: started). rewrite replay_app, Hr. cbn.
    replace (existsb (Nat.eqb (created s)) started) with false.
    + split; [reflexivity|]. split.
      * intros n [<- | Hn]; [lia|]. apply Hb in Hn. lia.
      * intros source Hs. apply in_app_or in Hs as [Hs | [<- | []]].
        -- right. apply Hin, Hs.
        -- left. reflexivity.
    + symmetry. apply not_true_is_false. intros Hex.
      apply existsb_exists in Hex as (n & Hn & Heq).
      apply Nat.eqb_eq in Heq. subst n. contradiction.
  - rewrite map_app. apply NoDup_app; [exact Hnd | repeat constructor; intros [] |].
    intros n Hn Hn'. cbn in Hn'. destruct Hn' as [Heq | []].
    apply in_map_iff in Hn as (source & Hnode & Hs).
    apply Hfresh. rewrite Heq, <- Hnode. apply Hin, Hs.
  - intros source Hs. apply in_app_or in Hs as [Hs | [<- | []]].
    + destruct (Hstarted source Hs) as [when Hw].
      exists when. apply in_or_app. left. exact Hw.
    + exists (nextAudioStartTimeRef s). apply in_or_app. right. left. reflexivity.
Qed.

Lemma step_sources_inv (s : St) (e : Event) :
  sources_inv s -> sources_inv (step s e).
Proof.
  intros Hs. destruct e; cbn.
  - revert Hs. unfold startCameraAndMic. destruct stream.
    + apply sources_inv_quiet; try reflexivity.
      exists []. cbn. rewrite app_nil_r. auto.
    + apply sources_inv_quiet; try reflexivity.
      eexists. split; [reflexivity|]. repeat constructor.
  - revert Hs. apply sources_inv_quiet.
    + unfold startSession, startSession_catch. break_matches; congruence.
    + unfold startSession, startSession_catch. break_matches; congruence.
    + destruct (startSession_effects b s) as (es & Hl & Hes).
      exists es. split; [exact Hl|].
      revert Hes. apply Forall_impl. intros e. destruct e; cbn; congruence.
  - revert Hs. unfold onopen.
    destruct (inputAudioContextRef s); [destruct (mediaStreamRef s)|]; auto.
    apply sources_inv_quiet; try reflexivity.
    unfold emit. cbn. rewrite <- app_assoc.
    eexists. split; [reflexivity|]. repeat constructor.
  - apply sources_inv_onmessage, Hs.
  - apply sources_inv_onmessage_decoded, Hs.
  - revert Hs. apply sources_inv_quiet; try reflexivity.
    exists []. cbn. rewrite app_nil_r. auto.
  - destruct Hs as ((started & Hr & Hb & Hin) & Hnd & Hstarted).
    unfold sources_inv, onended. cbn. split; [|split].
    + exists started. split; [exact Hr|]. split; [exact Hb|].
      intros src Hs. apply filter_In in Hs. apply Hin, Hs.
    + apply NoDup_map_filter, Hnd.
    + intros src Hs. apply filter_In in Hs. apply Hstarted, Hs.
  - unfold onerror. apply sources_inv_cleanup.
    revert Hs. apply sources_inv_quiet; try reflexivity.
    eexists. split; [reflexivity|]. repeat constructor.
  - unfold onclose. apply sources_inv_cleanup.
    revert Hs. apply sources_inv_quiet; try reflexivity.
    exists []. cbn. rewrite app_nil_r. auto.
  - unfold stopSession. apply (sources_inv_quiet (cleanup s)); try reflexivity.
    + exists []. cbn. rewrite app_nil_r. auto.
    + apply sources_inv_cleanup, Hs.
  - apply sources_inv_cleanup, Hs.
Qed.

Lemma run_sources_inv (evs : list Event) (s : St) :
  sources_inv s -> sources_inv (run evs s).
Proof.
  revert s. induction evs as [|e evs IH]; intros s Hs; [exact Hs|].
  cbn. apply IH, step_sources_inv, Hs.
Qed.

(** X12. Along every history of the component, whichever way messages,
    decodings, endings, interruptions, stops and restarts interleave:
    [start()] is called at most once on a source and [stop()] only on a
    source that was started, so neither call throws; the set of sources
    holds no source twice; and every source in it has been started. *)
Theorem sources_started_once :
  forall evs,
    let s := run evs initial in
    replay [] (log s) <> None /\
    NoDup (map node (audioSourcesRef s)) /\
    (forall source,
        In source (audioSourcesRef s) ->
        exists when, In (SourceStart source when) (log s)).
Proof.
  intros evs s.
  assert (Hs : sources_inv s).
  { apply run_sources_inv. unfold sources_inv. cbn. split; [|split].
    - exists []. split; [reflexivity|]. split; intros ? [].
    - constructor.
    - intros ? []. }
  destruct Hs as ((started & Hr & _) & Hnd & Hstarted).
  split; [rewrite Hr; discriminate|]. split; assumption.
Qed.

End SceneDescriptorMode.

(** ** Maps mode: permissions and the navigation loop *)

Module MapsMode.

(** The [locationPermission] state of the component. *)
Inductive Permission := checking | prompt | granted | denied.

(** [PermissionStatus.state], as the Permissions API reports it. *)
Inductive PermissionState := api_granted | api_denied | api_prompt.

Definition of_state (p : PermissionState) : Permission :=
  match p with
  | api_granted => granted
  | api_denied => denied
  | api_prompt => prompt
  end.

(** How [navigator.permissions.query] settles. *)
Inductive Query :=
| Reported (p : PermissionState)
| QueryThrows.

(** How [generateContent] settles. *)
Inductive Answer :=
| Text (instruction : string)
| Failed.

Record HTMLVideoElement := mkVideo {
  srcObject : option nat;          (* the MediaStream shown, by handle *)
  readyState : Z
}.

Record HTMLCanvasElement := mkCanvas {
  context2d : bool                 (* getContext('2d') returns a context *)
}.

Inductive Effect :=
| SpeechCancel
| Speak (text : string)
| ClearInterval (timer : positive)
| StopTracks (stream : nat)
| ConsoleError (what : string)
| QueryPermission
| GetCurrentPosition
| WatchPosition (watch : positive)
| ClearWatch (watch : positive)
| GetUserMedia
| DrawImage
| GenerateContent (frame : string)
| SetTimeout
| SetInterval (timer : positive)
| SetMode (mode : string).

(** The component: its React state, its refs, the listener and the
    requests under way, and the effects performed. Timer and watch
    handles are above zero. *)
Record St := mkSt {
  destination : string;
  isNavigating : bool;
  instruction : string;
  currentLocation : option (Q * Q);   (* lat, lng *)
  error : option string;
  isLoading : bool;
  locationPermission : Permission;
  videoRef : option HTMLVideoElement;
  canvasRef : option HTMLCanvasElement;
  intervalRef : option positive;   (* a timer handle *)
  aiRef : option nat;   (* the GoogleGenAI instance, by handle *)
  locationWatcherId : option positive;   (* a watch handle *)
  isNavigatingRef : bool;
  onchange : bool;   (* permissionStatus.onchange is installed *)
  pendingFrames : nat;   (* frames being encoded *)
  pendingRequests : nat;   (* generateContent calls not settled yet *)
  log : list Effect   (* the effects performed, oldest first *)
}.

Definition setDestination (v : string) (s : St) : St :=
  mkSt v (isNavigating s) (instruction s) (currentLocation s) (error s)
       (isLoading s) (locationPermission s) (videoRef s) (canvasRef s)
       (intervalRef s) (aiRef s) (locationWatcherId s) (isNavigatingRef s)
       (onchange s) (pendingFrames s) (pendingRequests s) (log s).

Definition setIsNavigating (v : bool) (s : St) : St :=
  mkSt (destination s) v (instruction s) (currentLocation s) (error s)
       (isLoading s) (locationPermission s) (videoRef s) (canvasRef s)
       (intervalRef s) (aiRef s) (locationWatcherId s) (isNavigatingRef s)
       (onchange s) (pendingFrames s) (pendingRequests s) (log s).

Definition setInstruction (v : string) (s : St) : St :=
  mkSt (destination s) (isNavigating s) v (currentLocation s) (error s)
       (isLoading s) (locationPermission s) (videoRef s) (canvasRef s)
       (intervalRef s) (aiRef s) (locationWatcherId s) (isNavigatingRef s)
       (onchange s) (pendingFrames s) (pendingRequests s) (log s).

Definition setCurrentLocation (v : option (Q * Q)) (s : St) : St :=
  mkSt (destination s) (isNavigating s) (instruction s) v (error s)
       (isLoading s) (locationPermission s) (videoRef s) (canvasRef s)
       (intervalRef s) (aiRef s) (locationWatcherId s) (isNavigatingRef s)
       (onchange s) (pendingFrames s) (pendingRequests s) (log s).

Definition setError (v : option string) (s : St) : St :=
  mkSt (destination s) (isNavigating s) (instruction s) (currentLocation s)
       v (isLoading s) (locationPermission s) (videoRef s) (canvasRef s)
       (intervalRef s) (aiRef s) (locationWatcherId s) (isNavigatingRef s)
       (onchange s) (pendingFrames s) (pendingRequests s) (log s).

Definition setIsLoading (v : bool) (s : St) : St :=
  mkSt (destination s) (isNavigating s) (instruction s) (currentLocation s)
       (error s) v (locationPermission s) (videoRef s) (canvasRef s)
       (intervalRef s) (aiRef s) (locationWatcherId s) (isNavigatingRef s)
       (onchange s) (pendingFrames s) (pendingRequests s) (log s).

Definition setLocationPermission (v : Permission) (s : St) : St :=
  mkSt (destination s) (isNavigating s) (instruction s) (currentLocation s)
       (error s) (isLoading s) v (videoRef s) (canvasRef s) (intervalRef s)
       (aiRef s) (locationWatcherId s) (isNavigatingRef s) (onchange s)
       (pendingFrames s) (pendingRequests s) (log s).

Definition set_videoRef (v : option HTMLVideoElement) (s : St) : St :=
  mkSt (destination s) (isNavigating s) (instruction s) (currentLocation s)
       (error s) (isLoading s) (locationPermission s) v (canvasRef s)
       (intervalRef s) (aiRef s) (locationWatcherId s) (isNavigatingRef s)
       (onchange s) (pendingFrames s) (pendingRequests s) (log s).

Definition set_canvasRef (v : option HTMLCanvasElement) (s : St) : St :=
  mkSt (destination s) (isNavigating s) (instruction s) (currentLocation s)
       (error s) (isLoading s) (locationPermission s) (videoRef s) v
       (intervalRef s) (aiRef s) (locationWatcherId s) (isNavigatingRef s)
       (onchange s) (pendingFrames s) (pendingRequests s) (log s).

Definition set_intervalRef (v : option positive) (s : St) : St :=
  mkSt (destination s) (isNavigating s) (instruction s) (currentLocation s)
       (error s) (isLoading s) (locationPermission s) (videoRef s)
       (canvasRef s) v (aiRef s) (locationWatcherId s) (isNavigatingRef s)
       (onchange s) (pendingFrames s) (pendingRequests s) (log s).

Definition set_aiRef (v : option nat) (s : St) : St :=
  mkSt (destination s) (isNavigating s) (instruction s) (currentLocation s)
       (error s) (isLoading s) (locationPermission s) (videoRef s)
       (canvasRef s) (intervalRef s) v (locationWatcherId s)
       (isNavigatingRef s) (onchange s) (pendingFrames s)
       (pendingRequests s) (log s).

Definition set_locationWatcherId (v : option positive) (s : St) : St :=
  mkSt (destination s) (isNavigating s) (instruction s) (currentLocation s)
       (error s) (isLoading s) (locationPermission s) (videoRef s)
       (canvasRef s) (intervalRef s) (aiRef s) v (isNavigatingRef s)
       (onchange s) (pendingFrames s) (pendingRequests s) (log s).

Definition set_isNavigatingRef (v : bool) (s : St) : St :=
  mkSt (destination s) (isNavigating s) (instruction s) (currentLocation s)
       (error s) (isLoading s) (locationPermission s) (videoRef s)
       (canvasRef s) (intervalRef s) (aiRef s) (locationWatcherId s) v
       (onchange s) (pendingFrames s) (pendingRequests s) (log s).

Definition set_onchange (v : bool) (s : St) : St :=
  mkSt (destination s) (isNavigating s) (instruction s) (currentLocation s)
       (error s) (isLoading s) (locationPermission s) (videoRef s)
       (canvasRef s) (intervalRef s) (aiRef s) (locationWatcherId s)
       (isNavigatingRef s) v (pendingFrames s) (pendingRequests s) (log s).

Definition set_pendingFrames (v : nat) (s : St) : St :=
  mkSt (destination s) (isNavigating s) (instruction s) (currentLocation s)
       (error s) (isLoading s) (locationPermission s) (videoRef s)
       (canvasRef s) (intervalRef s) (aiRef s) (locationWatcherId s)
       (isNavigatingRef s) (onchange s) v (pendingRequests s) (log s).

Definition set_pendingRequests (v : nat) (s : St) : St :=
  mkSt (destination s) (isNavigating s) (instruction s) (currentLocation s)
       (error s) (isLoading s) (locationPermission s) (videoRef s)
       (canvasRef s) (intervalRef s) (aiRef s) (locationWatcherId s)
       (isNavigatingRef s) (onchange s) (pendingFrames s) v (log s).

Definition set_log (v : list Effect) (s : St) : St :=
  mkSt (destination s) (isNavigating s) (instruction s) (currentLocation s)
       (error s) (isLoading s) (locationPermission s) (videoRef s)
       (canvasRef s) (intervalRef s) (aiRef s) (locationWatcherId s)
       (isNavigatingRef s) (onchange s) (pendingFrames s)
       (pendingRequests s) v.

(** The component as first rendered. *)
Definition initial : St :=
  mkSt "" false "Enter a destination to begin." None None true checking
       None None None None None false false 0 0 [].

Definition emit (e : Effect) (s : St) : St := set_log (log s ++ [e])%list s.

(** [speak]. *)
Definition speak (text : string) (s : St) : St :=
  emit (Speak text) (emit SpeechCancel s).

(** [cleanup]. *)
Definition cleanup (s : St) : St :=
  let s :=
    match intervalRef s with
    | Some timer => set_intervalRef None (emit (ClearInterval timer) s)
    | None => s
    end in
  let s :=
    match videoRef s with
    | Some video =>
        match srcObject video with
        | Some stream => emit (StopTracks stream) s
        | None => s
        end
    | None => s
    end in
  emit SpeechCancel s.

(** [checkLocationPermission], run once when the component mounts.
    [supported] tells whether [navigator.geolocation] exists; [q] is how
    the permission query settles. *)
Definition checkLocationPermission (supported : bool) (q : Query) (s : St) : St :=
  if negb supported then
    let s := setError (Some "Geolocation is not supported by your browser.") s in
    setLocationPermission denied s
  else
    let s := emit QueryPermission s in
    match q with
    | Reported p =>
        let s := setLocationPermission (of_state p) s in
        set_onchange true s
    | QueryThrows =>
        let s :=
          emit (ConsoleError "Permissions API not supported, falling back to prompt.") s in
        setLocationPermission prompt s
    end.

(** The [permissionStatus.onchange] listener, when one was installed. *)
Definition permissionChanged (p : PermissionState) (s : St) : St :=
  if onchange s then setLocationPermission (of_state p) s else s.

(** The effect that follows [locationPermission]: the clean-up of its
    previous run, then its body. *)
Definition locationEffect (watch : positive) (s : St) : St :=
  let s :=
    match locationWatcherId s with
    | Some old => set_locationWatcherId None (emit (ClearWatch old) s)
    | None => s
    end in
  match locationPermission s with
  | granted =>
      let s := setIsLoading true s in
      let s := emit GetCurrentPosition s in
      let s := emit (WatchPosition watch) s in
      set_locationWatcherId (Some watch) s
  | _ => setIsLoading false s
  end.

Definition successCallback (lat lng : Q) (s : St) : St :=
  let s := setCurrentLocation (Some (lat, lng)) s in
  let s := setIsLoading false s in
  setError None s.

Definition errorCallback (s : St) : St :=
  let s :=
    setError (Some "Unable to retrieve your location. Please check device settings.") s in
  setIsLoading false s.

(** [requestLocationPermission], and its error callback. *)
Definition requestLocationPermission (s : St) : St := emit GetCurrentPosition s.

Definition requestLocationPermission_error (permission_denied : bool) (s : St) : St :=
  if permission_denied then
    setError (Some "Location permission denied. Please enable it in your browser settings.") s
  else
    setError (Some "Unable to retrieve your location.") s.

(** [startCamera] after its [await]: with the stream, or [None] when
    [getUserMedia] rejects. *)
Definition startCamera_settled (stream : option nat) (s : St) : St :=
  match stream with
  | Some stream =>
      match videoRef s with
      | Some video => set_videoRef (Some (mkVideo (Some stream) (readyState video))) s
      | None => s
      end
  | None =>
      let s := emit (ConsoleError "Error accessing camera:") s in
      setError (Some "Could not access camera. Please check permissions.") s
  end.

(** [getNavigationInstruction] up to its first [await] (the encoding of
    the frame). *)
Definition getNavigationInstruction (s : St) : St :=
  match aiRef s, currentLocation s, videoRef s, canvasRef s with
  | Some _, Some _, Some video, Some canvas =>
      if (readyState video <? 2)%Z then s
      else if negb (context2d canvas) then s
      else
        let s := emit DrawImage s in
        set_pendingFrames (S (pendingFrames s)) s
  | _, _, _, _ => s
  end.

(** ... from the encoded frame ([None]: no blob) to the [await] of
    [generateContent]. *)
Definition getNavigationInstruction_encoded (frame : option string) (s : St) : St :=
  match pendingFrames s with
  | O => s
  | S n =>
      let s := set_pendingFrames n s in
      match frame with
      | None => s
      | Some base64Image =>
          let s := setInstruction "Thinking..." s in
          let s := emit (GenerateContent base64Image) s in
          set_pendingRequests (S (pendingRequests s)) s
      end
  end.

(** ... and from the answer to the end. *)
Definition getNavigationInstruction_answered (r : Answer) (s : St) : St :=
  match pendingRequests s with
  | O => s
  | S n =>
      let s := set_pendingRequests n s in
      match r with
      | Text newInstruction =>
          if isNavigatingRef s then
            let s := setInstruction newInstruction s in
            speak newInstruction s
          else s
      | Failed =>
          let s := emit (ConsoleError "AI navigation error:") s in
          if isNavigatingRef s then
            let errorMsg := "Sorry, I couldn't get the next instruction." in
            let s := setInstruction errorMsg s in
            speak errorMsg s
          else s
      end
  end.

(** The six payload bits of a UTF-8 continuation byte. *)
Definition continuation (b : ascii) : option N :=
  let n := N_of_ascii b in
  if ((128 <=? n) && (n <=? 191))%N then Some (n - 128)%N else None.

(** Text is held as its UTF-8 bytes; [code_points] reads the characters
    back. A byte that begins no well-formed sequence is read as the
    character of that number. *)
Fixpoint code_points (text : string) : list N :=
  match text with
  | EmptyString => []
  | String a rest =>
      let n := N_of_ascii a in
      let byte := n :: code_points rest in
      if (n <? 192)%N then byte
      else
        match rest with
        | EmptyString => byte
        | String b rest2 =>
            match continuation b with
            | None => byte
            | Some x =>
                if (n <? 224)%N then
                  let cp := ((n - 192) * 64 + x)%N in
                  if (128 <=? cp)%N then cp :: code_points rest2 else byte
                else
                  match rest2 with
                  | EmptyString => byte
                  | String c rest3 =>
                      match continuation c with
                      | None => byte
                      | Some y =>
                          if (n <? 240)%N then
                            let cp := (((n - 224) * 64 + x) * 64 + y)%N in
                            if (2048 <=? cp)%N then cp :: code_points rest3
                            else byte
                          else
                            match rest3 with
                            | EmptyString => byte
                            | String d rest4 =>
                                match continuation d with
                                | None => byte
                                | Some z =>
                                    let cp :=
                                      ((((n - 240) * 64 + x) * 64 + y) * 64 + z)%N in
                                    if ((65536 <=? cp) && (cp <=? 1114111))%N
                                    then cp :: code_points rest4
                                    else byte
                                end
                            end
                      end
                  end
            end
        end
  end.

(** The characters [String.prototype.trim] strips: the white space and
    the line terminators of ECMAScript. These are U+0009 to U+000D,
    U+0020, U+00A0, U+1680, U+2000 to U+200A, U+2028, U+2029, U+202F,
    U+205F, U+3000 and U+FEFF. *)
Definition is_white_space (cp : N) : bool :=
  ((9 <=? cp) && (cp <=? 13) || (cp =? 32) || (cp =? 160) || (cp =? 5760)
   || (8192 <=? cp) && (cp <=? 8202) || (cp =? 8232) || (cp =? 8233)
   || (cp =? 8239) || (cp =? 8287) || (cp =? 12288) || (cp =? 65279))%N.

(** [!text.trim()]: nothing is left of the text when the white space at
    its two ends is stripped, which is to say that all of it is white
    space. *)
Definition blank (text : string) : bool :=
  forallb is_white_space (code_points text).

(** The text of one no-break space, U+00A0. *)
Definition no_break_space : string := String "194" (String "160" EmptyString).

(** [handleStartNavigation] up to [await startCamera()]. *)
Definition handleStartNavigation (s : St) : St :=
  match blank (destination s), currentLocation s with
  | false, Some _ =>
      let s := setError None s in
      let s := setIsNavigating true s in
      emit GetUserMedia s
  | _, _ => setError (Some "Please enter a destination and enable location.") s
  end.

(** ... and after it. *)
Definition handleStartNavigation_camera (stream : option nat) (s : St) : St :=
  let s := startCamera_settled stream s in
  let s := setInstruction "Starting navigation..." s in
  let s := speak "Starting navigation..." s in
  emit SetTimeout s.

(** The callback of that timeout, two seconds later. *)
Definition handleStartNavigation_timeout (timer : positive) (s : St) : St :=
  let s := getNavigationInstruction s in
  let s := emit (SetInterval timer) s in
  set_intervalRef (Some timer) s.

(** [handleStopNavigation]. *)
Definition handleStopNavigation (s : St) : St :=
  let s := setIsNavigating false s in
  let s :=
    setInstruction "Navigation stopped. Enter a destination to begin again." s in
  cleanup s.

(** [handleBack]. *)
Definition handleBack (s : St) : St :=
  let s := cleanup s in
  emit (SetMode "HOME") s.

(** The effect that follows [isNavigating]. *)
Definition syncRef (s : St) : St := set_isNavigatingRef (isNavigating s) s.

(** The four screens the component returns. An empty error message is
    not shown. *)
Inductive Screen :=
| Spinner (caption : string)
| LocationRequired (message : option string)
| LocationAccessDenied (message : option string)
| Navigator (navigating : bool) (instruction : string) (message : option string).

Definition shown (message : option string) : option string :=
  match message with
  | Some "" => None
  | other => other
  end.

Definition render (s : St) : Screen :=
  match isLoading s, locationPermission s with
  | _, checking => Spinner "Checking permissions..."
  | true, _ => Spinner "Getting your location..."
  | false, prompt => LocationRequired (shown (error s))
  | false, denied => LocationAccessDenied (shown (error s))
  | false, granted => Navigator (isNavigating s) (instruction s) (shown (error s))
  end.

(** What can happen to the mounted component. *)
Inductive Event :=
| PermissionChecked (supported : bool) (q : Query)
| PermissionChanged (p : PermissionState)
| LocationEffect (watch : positive)
| Position (lat lng : Q)
| PositionError
| ClickEnable
| EnableFailed (permission_denied : bool)
| TypeDestination (text : string)
| ClickStart
| CameraSettled (stream : option nat)
| TimeoutFired (timer : positive)
| Tick
| Encoded (frame : option string)
| Answered (r : Answer)
| ClickStop
| ClickBack
| Rendered
| Mounted (video : option HTMLVideoElement) (canvas : option HTMLCanvasElement)
| AiReady (ai : nat).

(** A click reaches its handler only on the screen that shows the
    button, and only when the button is enabled. *)
Definition step (s : St) (e : Event) : St :=
  match e with
  | PermissionChecked supported q => checkLocationPermission supported q s
  | PermissionChanged p => permissionChanged p s
  | LocationEffect watch => locationEffect watch s
  | Position lat lng => successCallback lat lng s
  | PositionError => errorCallback s
  | ClickEnable =>
      match render s with
      | LocationRequired _ => requestLocationPermission s
      | _ => s
      end
  | EnableFailed permission_denied =>
      requestLocationPermission_error permission_denied s
  | TypeDestination text =>
      match render s with
      | Navigator false _ _ => setDestination text s
      | _ => s
      end
  | ClickStart =>
      match render s, destination s, currentLocation s with
      | Navigator false _ _, String _ _, Some _ => handleStartNavigation s
      | _, _, _ => s
      end
  | CameraSettled stream => handleStartNavigation_camera stream s
  | TimeoutFired timer => handleStartNavigation_timeout timer s
  | Tick => getNavigationInstruction s
  | Encoded frame => getNavigationInstruction_encoded frame s
  | Answered r => getNavigationInstruction_answered r s
  | ClickStop =>
      match render s with
      | Navigator _ _ _ => handleStopNavigation s
      | _ => s
      end
  | ClickBack =>
      match render s with
      | Spinner _ => s
      | _ => handleBack s
      end
  | Rendered => syncRef s
  | Mounted video canvas => set_canvasRef canvas (set_videoRef video s)
  | AiReady ai => set_aiRef (Some ai) s
  end.

Definition run (evs : list Event) (s : St) : St := fold_left step evs s.

(** What was said aloud. *)
Definition spoken (l : list Effect) : list string :=
  flat_map (fun e => match e with Speak text => [text] | _ => [] end) l.

(** The requests made to the geolocation and permission services. *)
Definition asks_location (e : Effect) : bool :=
  match e with
  | QueryPermission | GetCurrentPosition | WatchPosition _ => true
  | _ => false
  end.

(** The events by which the browser reports a permission: the result of
    the check made at mount, and a later change. *)
Definition reports_permission (e : Event) : bool :=
  match e with
  | PermissionChecked _ _ | PermissionChanged _ => true
  | _ => false
  end.

Definition starts_navigation (e : Event) : bool :=
  match e with
  | ClickStart => true
  | _ => false
  end.

(** *** Invariant and scenarios *)

(** Nothing but a press of Start raises [isNavigating], so nothing but
    that press, followed by the effect, raises the flag. *)
Definition stopped (s : St) : Prop :=
  isNavigating s = false /\ isNavigatingRef s = false.

(** A walk, from the mounting of the component to its first request to
    the model. *)
Definition walk_to_first_request : list Event :=
  [PermissionChecked true (Reported api_granted);
   LocationEffect 1;
   AiReady 1;
   Position (48 # 1) (2 # 1);
   TypeDestination "Library";
   ClickStart; Rendered;
   Mounted (Some (mkVideo None 4)) (Some (mkCanvas true));
   CameraSettled (Some 5%nat);
   TimeoutFired 9;
   Encoded (Some "frame")].

(** Stop, then Start again, while that request is in flight. *)
Definition stop_and_restart : list Event :=
  [ClickStop; Rendered; Mounted None None;
   ClickStart; Rendered;
   Mounted (Some (mkVideo None 4)) (Some (mkCanvas true));
   CameraSettled (Some 6%nat)].

(** The answer to that request. *)
Definition late_answer : Event := Answered (Text "Turn left at the bakery.").

(** The component after its check in a browser without geolocation,
    and in one that reports the permission as denied. *)
Definition unsupported_browser : St :=
  run [PermissionChecked false QueryThrows; LocationEffect 1] initial.

Definition refused_permission : St :=
  run [PermissionChecked true (Reported api_denied); LocationEffect 1] initial.

(** *** The rest of the file *)

(** [String.prototype.split] on a separator of one character. *)
Fixpoint split (sep : ascii) (text : string) : list string :=
  match text with
  | EmptyString => [EmptyString]
  | String c rest =>
      if Ascii.eqb c sep then EmptyString :: split sep rest
      else
        match split sep rest with
        | first :: others => String c first :: others
        | [] => [String c EmptyString]
        end
  end.

(** [blobToBase64], from the data URL the reader loads:
    [(reader.result as string).split(',')[1]]; [None] is [undefined]. *)
Definition blobToBase64 (result : string) : option string :=
  nth_error (split "," result) 1.

(** The text holds no [sep]. *)
Fixpoint free_of (sep : ascii) (text : string) : bool :=
  match text with
  | EmptyString => true
  | String c rest => negb (Ascii.eqb c sep) && free_of sep rest
  end.

(** Geolocation watches started and not cleared. *)
Fixpoint watching (l : list Effect) : Z :=
  match l with
  | [] => 0
  | WatchPosition _ :: rest => 1 + watching rest
  | ClearWatch _ :: rest => watching rest - 1
  | _ :: rest => watching rest
  end.

(** *** Shared steps of the proofs *)

Ltac case_matches :=
  repeat match goal with
    | |- context [match ?x with _ => _ end] => destruct x eqn:?; cbn
    end.

Lemma spoken_app (l1 l2 : list Effect) :
  spoken (l1 ++ l2) = (spoken l1 ++ spoken l2)%list.
Proof. apply flat_map_app. Qed.

(** *** The liveness flag of the navigation loop *)

Lemma answered_when_not_navigating (r : Answer) (s : St) :
  isNavigatingRef s = false ->
  instruction (getNavigationInstruction_answered r s) = instruction s /\
  spoken (log (getNavigationInstruction_answered r s)) = spoken (log s).
Proof.
  intros Hflag. unfold getNavigationInstruction_answered.
  destruct (pendingRequests s) as [|n]; [auto|].
  destruct r as [newInstruction|]; cbn; rewrite Hflag; cbn; [auto|].
  rewrite spoken_app. cbn. rewrite app_nil_r. auto.
Qed.

Lemma answered_when_navigating (r : Answer) (s : St) :
  isNavigatingRef s = true ->
  pendingRequests s <> 0%nat ->
  let said :=
    match r with
    | Text newInstruction => newInstruction
    | Failed => "Sorry, I couldn't get the next instruction."
    end in
  instruction (getNavigationInstruction_answered r s) = said /\
  spoken (log (getNavigationInstruction_answered r s)) =
    (spoken (log s) ++ [said])%list.
Proof.
  intros Hflag Hpending said. subst said.
  unfold getNavigationInstruction_answered.
  destruct (pendingRequests s) as [|n]; [congruence|].
  destruct r as [newInstruction|]; cbn; rewrite Hflag; cbn;
    rewrite ?spoken_app; cbn; rewrite ?app_nil_r; auto.
Qed.

Lemma stop_then_effect (s : St) : stopped (syncRef (handleStopNavigation s)).
Proof.
  unfold stopped, syncRef, handleStopNavigation, cleanup. cbn.
  destruct (intervalRef s); cbn;
    (destruct (videoRef s) as [video|]; [destruct (srcObject video)|]);
    split; reflexivity.
Qed.

Lemma step_stopped (s : St) (e : Event) :
  starts_navigation e = false -> stopped s -> stopped (step s e).
Proof.
  unfold stopped. intros He [Hnav Href].
  destruct e; try discriminate He; cbn;
    unfold checkLocationPermission, permissionChanged, locationEffect,
      successCallback, errorCallback, requestLocationPermission,
      requestLocationPermission_error, handleStartNavigation_camera,
      handleStartNavigation_timeout, startCamera_settled,
      getNavigationInstruction, getNavigationInstruction_encoded,
      getNavigationInstruction_answered, handleStopNavigation, handleBack,
      cleanup, syncRef, speak;
    case_matches; cbn; auto; congruence.
Qed.

Lemma run_stopped (evs : list Event) (s : St) :
  forallb (fun e => negb (starts_navigation e)) evs = true ->
  stopped s -> stopped (run evs s).
Proof.
  revert s. induction evs as [|e evs IH]; intros s Hall Hs; [exact Hs|].
  cbn in Hall. apply andb_true_iff in Hall as [He Hevs].
  cbn. apply IH; [exact Hevs|].
  apply step_stopped; [now apply negb_true_iff | exact Hs].
Qed.

(** C5, as amended. An answer (text or failure) that settles while
    [isNavigatingRef.current] is false changes neither the instruction
    shown nor what is spoken. The flag is false once the effect that
    follows [handleStopNavigation] has run, and stays false through every
    event until Start is pressed again. An answer that settles while the
    flag is true is shown and spoken, whenever its request was made. *)
Theorem response_gated_by_liveness_flag :
  (forall r s,
      isNavigatingRef s = false ->
      let s' := getNavigationInstruction_answered r s in
      instruction s' = instruction s /\ spoken (log s') = spoken (log s)) /\
  (forall s,
      let s' := syncRef (handleStopNavigation s) in
      isNavigating s' = false /\ isNavigatingRef s' = false) /\
  (forall evs s,
      isNavigating s = false ->
      isNavigatingRef s = false ->
      forallb (fun e => negb (starts_navigation e)) evs = true ->
      isNavigatingRef (run evs s) = false) /\
  (forall r s,
      isNavigatingRef s = true ->
      pendingRequests s <> 0%nat ->
      let s' := getNavigationInstruction_answered r s in
      let said :=
        match r with
        | Text newInstruction => newInstruction
        | Failed => "Sorry, I couldn't get the next instruction."
        end in
      instruction s' = said /\
      spoken (log s') = (spoken (log s) ++ [said])%list).
Proof.
  split; [exact answered_when_not_navigating|].
  split; [exact stop_then_effect|].
  split; [|exact answered_when_navigating].
  intros evs s Hnav Href Hall.
  apply (run_stopped evs s Hall). split; assumption.
Qed.

Lemma response_gated_by_liveness_flag_witness :
  let stopped_walk :=
    run (walk_to_first_request ++ [ClickStop; Rendered; Mounted None None])%list
        initial in
  let s' := step stopped_walk late_answer in
  pendingRequests stopped_walk = 1%nat /\
  instruction s' = "Navigation stopped. Enter a destination to begin again." /\
  spoken (log s') = spoken (log stopped_walk).
Proof.
  split; [reflexivity|].
  cbv zeta.
  destruct (proj1 response_gated_by_liveness_flag
              (Text "Turn left at the bakery.")
              (run (walk_to_first_request ++ [ClickStop; Rendered; Mounted None None])%list
                   initial)
              eq_refl) as [Hshown Hsaid].
  split; [exact Hshown | exact Hsaid].
Defined.

(** C5, the claim as stated fails: this answer settles after
    [handleStopNavigation] was called, and it is shown and spoken. *)
Lemma stale_response_after_restart :
  let before := run (walk_to_first_request ++ stop_and_restart)%list initial in
  let after := step before late_answer in
  In ClickStop (walk_to_first_request ++ stop_and_restart)%list /\
  instruction before = "Starting navigation..." /\
  instruction after = "Turn left at the bakery." /\
  spoken (log after) = (spoken (log before) ++ ["Turn left at the bakery."])%list.
Proof.
  vm_compute. repeat split. do 11 right. left. reflexivity.
Qed.

(** *** The permission states *)

Lemma denied_is_kept (s : St) (e : Event) :
  locationPermission s = denied ->
  reports_permission e = false ->
  locationPermission (step s e) = denied /\
  filter asks_location (log (step s e)) = filter asks_location (log s).
Proof.
  intros Hdenied He.
  destruct (isLoading s) eqn:Hloading;
    destruct e; try discriminate He; cbn;
    unfold render, locationEffect,
      successCallback, errorCallback, requestLocationPermission,
      requestLocationPermission_error, handleStartNavigation_camera,
      handleStartNavigation_timeout, startCamera_settled,
      getNavigationInstruction, getNavigationInstruction_encoded,
      getNavigationInstruction_answered, handleStopNavigation, handleBack,
      cleanup, syncRef, speak, emit;
    rewrite ?Hdenied, ?Hloading; cbn;
    case_matches; cbn in *; rewrite ?Hdenied; cbn;
    try congruence;
    rewrite ?filter_app; cbn; rewrite ?app_nil_r; auto.
Qed.

(** C8, as amended. A browser without geolocation and a permission the
    Permissions API reports as denied both leave [locationPermission] at
    [denied], and so lead to the one "Location Access Denied" screen; the
    difference is the message: "Geolocation is not supported by your
    browser." in the first case, none set in the second. In that state no
    event of the component other than a permission report of the browser
    changes [locationPermission], and none asks the geolocation or
    permission service again; without geolocation no change listener is
    installed, so the state is final. *)
Theorem denied_state_shared_and_final :
  (forall q s,
      let s' := checkLocationPermission false q s in
      locationPermission s' = denied /\
      error s' = Some "Geolocation is not supported by your browser." /\
      onchange s' = onchange s /\
      log s' = log s) /\
  (forall s,
      let s' := checkLocationPermission true (Reported api_denied) s in
      locationPermission s' = denied /\
      error s' = error s /\
      onchange s' = true) /\
  (forall s,
      locationPermission s = denied ->
      isLoading s = false ->
      render s = LocationAccessDenied (shown (error s))) /\
  (forall s e,
      locationPermission s = denied ->
      reports_permission e = false ->
      locationPermission (step s e) = denied /\
      filter asks_location (log (step s e)) = filter asks_location (log s)) /\
  (forall s p, onchange s = false -> permissionChanged p s = s).
Proof.
  split; [intros q s; cbn; auto|].
  split; [intros s; cbn; auto|].
  split.
  - intros s Hdenied Hloading. unfold render. now rewrite Hdenied, Hloading.
  - split; [exact denied_is_kept|].
    intros s p Hoff. unfold permissionChanged. now rewrite Hoff.
Qed.

Lemma denied_state_shared_and_final_witness :
  render refused_permission = LocationAccessDenied None /\
  locationPermission (step refused_permission ClickEnable) = denied /\
  filter asks_location (log (step refused_permission ClickEnable)) =
    [QueryPermission].
Proof.
  split.
  - apply (proj1 (proj2 (proj2 denied_state_shared_and_final))
             refused_permission eq_refl eq_refl).
  - apply (proj1 (proj2 (proj2 (proj2 denied_state_shared_and_final)))
             refused_permission ClickEnable eq_refl eq_refl).
Defined.

(** C8, the claim as stated fails: the two cases are one state of the
    permission state machine and one screen. *)
Lemma denied_and_unsupported_share_state :
  locationPermission unsupported_browser = denied /\
  locationPermission refused_permission = denied /\
  locationPermission unsupported_browser = locationPermission refused_permission /\
  render unsupported_browser =
    LocationAccessDenied (Some "Geolocation is not supported by your browser.") /\
  render refused_permission = LocationAccessDenied None.
Proof. repeat split. Qed.

(** *** When navigation starts *)

(** X13. Navigation is switched on by nothing but a press of Start,
    and only on the navigation screen (permission granted, location
    loaded), with a destination that is not blank and a location fix
    held. *)
Theorem navigation_starts_only_when_ready :
  forall s e,
    isNavigating s = false ->
    isNavigating (step s e) = true ->
    e = ClickStart /\
    blank (destination s) = false /\
    currentLocation s <> None /\
    locationPermission s = granted /\
    isLoading s = false.
Proof.
  intros s e Hoff Hon.
  destruct e; cbn in Hon;
    try (exfalso; revert Hon;
         unfold checkLocationPermission, permissionChanged, locationEffect,
           successCallback, errorCallback, requestLocationPermission,
           requestLocationPermission_error, handleStartNavigation_camera,
           handleStartNavigation_timeout, startCamera_settled,
           getNavigationInstruction, getNavigationInstruction_encoded,
           getNavigationInstruction_answered, handleStopNavigation, handleBack,
           cleanup, syncRef, speak;
         case_matches; cbn; congruence).
  split; [reflexivity|].
  unfold render, handleStartNavigation in Hon. rewrite Hoff in Hon.
  destruct (isLoading s) eqn:Hloading, (locationPermission s) eqn:Hperm;
    cbn in Hon; try congruence.
  destruct (blank (destination s)) eqn:Hblank,
           (currentLocation s) as [loc|] eqn:Hloc,
           (destination s) as [|c rest] eqn:Hdest;
    cbn in Hon; try congruence.
  repeat split; congruence.
Qed.

Lemma navigation_starts_only_when_ready_witness :
  let ready :=
    run [PermissionChecked true (Reported api_granted); LocationEffect 1;
         Position (48 # 1) (2 # 1); TypeDestination "Library"] initial in
  isNavigating (step ready ClickStart) = true /\
  blank (destination ready) = false /\
  locationPermission ready = granted.
Proof.
  split; [reflexivity|].
  destruct (navigation_starts_only_when_ready
              (run [PermissionChecked true (Reported api_granted); LocationEffect 1;
                    Position (48 # 1) (2 # 1); TypeDestination "Library"] initial)
              ClickStart eq_refl eq_refl)
    as (_ & Hblank & _ & Hgranted & _).
  split; assumption.
Defined.

(** A destination of one no-break space (U+00A0) is blank: Start shows
    the message and navigation stays off. *)
Example start_refused_on_no_break_space :
  let ready :=
    run [PermissionChecked true (Reported api_granted); LocationEffect 1;
         Position (48 # 1) (2 # 1); TypeDestination no_break_space] initial in
  blank no_break_space = true /\
  error (step ready ClickStart) =
    Some "Please enter a destination and enable location." /\
  isNavigating (step ready ClickStart) = false.
Proof. vm_compute. auto. Qed.

(** *** What Stop does not undo *)

(** X14. The "Thinking..." line and the request to the model are not
    guarded by the liveness flag. When a frame finishes encoding after
    Stop, the request is still sent and the instruction shown becomes
    "Thinking..."; the answer is then ignored, so "Thinking..." stays and
    nothing is spoken. *)
Theorem thinking_survives_stop :
  forall base64Image r s,
    pendingFrames s <> 0%nat ->
    isNavigatingRef s = false ->
    let asked := getNavigationInstruction_encoded (Some base64Image) s in
    let s' := getNavigationInstruction_answered r asked in
    log asked = (log s ++ [GenerateContent base64Image])%list /\
    instruction asked = "Thinking..." /\
    instruction s' = "Thinking..." /\
    spoken (log s') = spoken (log s).
Proof.
  intros base64Image r s Hpending Hflag asked s'. subst s' asked.
  unfold getNavigationInstruction_encoded, getNavigationInstruction_answered.
  destruct (pendingFrames s) as [|n]; [congruence|]. cbn.
  destruct r as [newInstruction|]; cbn; rewrite Hflag; cbn;
    rewrite ?spoken_app; cbn; rewrite ?app_nil_r; auto.
Qed.

Lemma thinking_survives_stop_witness :
  let encoding :=
    run [PermissionChecked true (Reported api_granted); LocationEffect 1;
         AiReady 1; Position (48 # 1) (2 # 1); TypeDestination "Library";
         ClickStart; Rendered;
         Mounted (Some (mkVideo None 4)) (Some (mkCanvas true));
         CameraSettled (Some 5%nat); TimeoutFired 9;
         ClickStop; Rendered] initial in
  instruction encoding = "Navigation stopped. Enter a destination to begin again." /\
  instruction (run [Encoded (Some "frame"); Answered (Text "Turn left.")] encoding)
    = "Thinking...".
Proof.
  split; [reflexivity|].
  refine (proj1 (proj2 (proj2
    (thinking_survives_stop "frame" (Text "Turn left.") _ _ _)))).
  - vm_compute. discriminate.
  - reflexivity.
Defined.

Lemma getNavigationInstruction_frame (s : St) :
  isNavigating (getNavigationInstruction s) = isNavigating s /\
  isNavigatingRef (getNavigationInstruction s) = isNavigatingRef s /\
  exists es, log (getNavigationInstruction s) = (log s ++ es)%list.
Proof.
  unfold getNavigationInstruction.
  destruct (aiRef s), (currentLocation s), (videoRef s) as [video|],
    (canvasRef s) as [canvas|];
    try (repeat split; exists []; symmetry; apply app_nil_r).
  destruct (readyState video <? 2)%Z;
    [repeat split; exists []; symmetry; apply app_nil_r|].
  destruct (context2d canvas); cbn;
    repeat split; eexists; (reflexivity || (symmetry; apply app_nil_r)).
Qed.

Lemma cleanup_clears_interval (s : St) (timer : positive) :
  intervalRef s = Some timer ->
  exists es, log (cleanup s) = (log s ++ ClearInterval timer :: es)%list.
Proof.
  intros Htimer. unfold cleanup, emit. rewrite Htimer. cbn.
  destruct (videoRef s) as [video|]; [destruct (srcObject video)|]; cbn;
    rewrite <- ?app_assoc; cbn; eexists; reflexivity.
Qed.

Lemma cleanup_interval_none (s : St) : intervalRef (cleanup s) = None.
Proof.
  unfold cleanup.
  destruct (intervalRef s) eqn:Htimer; cbn;
    (destruct (videoRef s) as [video|]; [destruct (srcObject video)|]); cbn;
    auto.
Qed.

(** X15. [handleStopNavigation] clears the interval but not the
    two-second timeout of [handleStartNavigation]. When that timeout fires
    after Stop, it installs the eight-second interval although navigation
    is off; the interval then runs until the next [cleanup]. *)
Theorem timeout_outlives_stop :
  forall timer s,
    let halted := syncRef (handleStopNavigation s) in
    let s' := handleStartNavigation_timeout timer halted in
    intervalRef halted = None /\
    isNavigating s' = false /\
    isNavigatingRef s' = false /\
    intervalRef s' = Some timer /\
    (exists es, log s' = (log halted ++ es ++ [SetInterval timer])%list) /\
    (exists es, log (cleanup s') = (log s' ++ ClearInterval timer :: es)%list).
Proof.
  intros timer s halted s'.
  assert (Hhalted : stopped halted) by apply stop_then_effect.
  destruct Hhalted as [Hnav Href].
  destruct (getNavigationInstruction_frame halted) as (Hn & Hr & es & Hlog).
  split; [apply (cleanup_interval_none
                   (setInstruction
                      "Navigation stopped. Enter a destination to begin again."
                      (setIsNavigating false s)))|].
  subst s'. unfold handleStartNavigation_timeout.
  split; [cbn; congruence|]. split; [cbn; congruence|].
  split; [reflexivity|]. split.
  - exists es. unfold emit. cbn. rewrite Hlog, <- app_assoc. reflexivity.
  - apply cleanup_clears_interval. reflexivity.
Qed.

(** *** Geolocation watches *)

Lemma watching_app (l1 l2 : list Effect) :
  watching (l1 ++ l2) = (watching l1 + watching l2)%Z.
Proof.
  induction l1 as [|e l1 IH]; [reflexivity|].
  destruct e; cbn [app watching]; rewrite IH; lia.
Qed.

Definition watch_inv (s : St) : Prop :=
  watching (log s) = match locationWatcherId s with
                     | Some _ => 1%Z
                     | None => 0%Z
                     end.

Lemma step_watch_inv (s : St) (e : Event) : watch_inv s -> watch_inv (step s e).
Proof.
  unfold watch_inv. intros Hs.
  destruct e; cbn;
    unfold render, checkLocationPermission, permissionChanged, locationEffect,
      successCallback, errorCallback, requestLocationPermission,
      requestLocationPermission_error, handleStartNavigation,
      handleStartNavigation_camera,
      handleStartNavigation_timeout, startCamera_settled,
      getNavigationInstruction, getNavigationInstruction_encoded,
      getNavigationInstruction_answered, handleStopNavigation, handleBack,
      cleanup, syncRef, speak, emit;
    cbn; case_matches; cbn in *;
    rewrite ?watching_app; cbn;
    repeat match goal with
      | H : locationWatcherId _ = _ |- _ => rewrite H in *
      end;
    try lia; congruence.
Qed.

(** X16. Along every history of the component the geolocation watches
    started and not yet cleared number one while [locationWatcherId]
    holds a handle and none while it is null: the effect clears the old
    watch before it starts a new one, and no other handler starts or
    clears one. *)
Theorem one_watch_at_most :
  forall evs,
    let s := run evs initial in
    watching (log s) = match locationWatcherId s with
                       | Some _ => 1%Z
                       | None => 0%Z
                       end.
Proof.
  intros evs s. subst s.
  assert (Hgen : forall s0, watch_inv s0 -> watch_inv (run evs s0)).
  { induction evs as [|e evs IH]; intros s0 H0; [exact H0|].
    cbn. apply IH, step_watch_inv, H0. }
  apply Hgen. reflexivity.
Qed.

(** *** A denial on the fallback path *)



(** *** The frame as base64 *)

Lemma split_head (sep : ascii) (text : string) :
  exists first others, split sep text = first :: others.
Proof.
  induction text as [|c rest (first & others & IH)]; cbn; [eauto|].
  destruct (Ascii.eqb c sep); [eauto|]. rewrite IH. eauto.
Qed.

Lemma split_free (sep : ascii) (text : string) :
  free_of sep text = true -> split sep text = [text].
Proof.
  induction text as [|c rest IH]; cbn; [reflexivity|].
  intros Hfree. apply andb_true_iff in Hfree as [Hc Hrest].
  apply negb_true_iff in Hc. rewrite Hc, (IH Hrest). reflexivity.
Qed.

Lemma split_at_first (sep : ascii) (before after : string) :
  free_of sep before = true ->
  split sep (before ++ String sep after) = before :: split sep after.
Proof.
  induction before as [|c rest IH]; cbn.
  - intros _. now rewrite Ascii.eqb_refl.
  - intros Hfree. apply andb_true_iff in Hfree as [Hc Hrest].
    apply negb_true_iff in Hc. rewrite Hc, (IH Hrest). reflexivity.
Qed.

(** X18. [blobToBase64] returns what follows the first comma of the
    data URL, up to the next comma if there is one. For a data URL whose
    header and base64 payload hold no comma, that is the payload, whole;
    for a text without a comma it is [undefined]. *)
Theorem blobToBase64_payload :
  (forall header payload,
      free_of "," header = true ->
      free_of "," payload = true ->
      blobToBase64 (header ++ "," ++ payload) = Some payload) /\
  (forall header payload rest,
      free_of "," header = true ->
      free_of "," payload = true ->
      blobToBase64 (header ++ "," ++ payload ++ "," ++ rest) = Some payload) /\
  (forall text, free_of "," text = true -> blobToBase64 text = None).
Proof.
  unfold blobToBase64. split; [|split].
  - intros header payload Hh Hp.
    change ("," ++ payload) with (String "," payload).
    rewrite split_at_first, split_free by assumption. reflexivity.
  - intros header payload rest Hh Hp.
    change ("," ++ payload ++ "," ++ rest) with (String "," (payload ++ String "," rest)).
    rewrite !split_at_first by assumption. reflexivity.
  - intros text Ht. rewrite split_free by assumption. reflexivity.
Qed.

Lemma blobToBase64_payload_witness :
  blobToBase64 "data:image/jpeg;base64,/9j/4AAQSkZJRg==" = Some "/9j/4AAQSkZJRg==".
Proof.
  apply (proj1 blobToBase64_payload "data:image/jpeg;base64" "/9j/4AAQSkZJRg==");
    reflexivity.
Defined.

End MapsMode.
